(** * Bondz: the challenge submission screen

    A shallow embedding of
    [src/main/components/bondzSpace/feed/challenges/ChallengeSubmissionPage.tsx]:
    the theme resolver [getChallengeTheme], the picker handlers, the submit
    handler [handleSubmit] and the rendering of the [ChallengeSubmissionPage]
    component, together with the event loop of the screen that drives them.

    Strings are [string]s holding text in UTF-8.  The string methods
    [toLowerCase] and [trim] belong to the JavaScript engine, not to the
    repository: they are an interface, [Builtins], and every result holds
    for every engine.  Where a result needs to know what they compute, it
    asks for [Ecma]: what ECMAScript fixes for them on ASCII text, and that
    trimming twice is trimming once. *)

From Stdlib Require Import String Ascii List Bool ZArith Lia Finite.
From Stdlib Require Import DecimalString DecimalZ DecimalPos.
Import ListNotations.
Local Open Scope string_scope.

(** ** JavaScript values and string methods *)

Module Js.

(** A completed evaluation: a value, or a thrown exception. *)
Inductive Exn : Type :=
| TypeError
| HostError.

Inductive Completion (A : Type) : Type :=
| Normal (a : A)
| Throw (e : Exn).
Arguments Normal {A} a.
Arguments Throw {A} e.

Fixpoint startsWith (s p : string) {struct p} : bool :=
  match p, s with
  | EmptyString, _ => true
  | String _ _, EmptyString => false
  | String a p', String b s' => Ascii.eqb a b && startsWith s' p'
  end.

(** [String.prototype.includes] *)
Fixpoint includes (s sub : string) : bool :=
  startsWith s sub ||
  match s with
  | EmptyString => false
  | String _ s' => includes s' sub
  end.

(** Truthiness of a string: every string but the empty one. *)
Definition truthy (s : string) : bool :=
  match s with
  | EmptyString => false
  | String _ _ => true
  end.

(** Truthiness of a [string | null]. *)
Definition truthyOrNull (v : option string) : bool :=
  match v with
  | None => false
  | Some s => truthy s
  end.

(** [Number.prototype.toString] on an integral number. *)
Definition toString (n : Z) : string :=
  NilZero.string_of_int (Z.to_int n).

Definition nl : string := String (ascii_of_nat 10) EmptyString.

End Js.

Import Js.

(** ** The string methods on ASCII text *)

Module AsciiText.

(** What ECMAScript fixes for [toLowerCase] and [trim] on text whose
    characters are all ASCII: the capitals A to Z become small letters, and
    the white space removed at both ends is TAB, LF, VT, FF, CR and SPACE. *)

Definition isAsciiChar (c : ascii) : bool := (nat_of_ascii c <? 128)%nat.

(** Every character of [s] is ASCII. *)
Fixpoint isAscii (s : string) : bool :=
  match s with
  | EmptyString => true
  | String c s' => isAsciiChar c && isAscii s'
  end.

Definition isUpper (c : ascii) : bool :=
  ((65 <=? nat_of_ascii c) && (nat_of_ascii c <=? 90))%nat.

Definition isLower (c : ascii) : bool :=
  ((97 <=? nat_of_ascii c) && (nat_of_ascii c <=? 122))%nat.

Definition lowerChar (c : ascii) : ascii :=
  if isUpper c then ascii_of_nat (nat_of_ascii c + 32) else c.

Fixpoint toLowerCase (s : string) : string :=
  match s with
  | EmptyString => EmptyString
  | String c s' => String (lowerChar c) (toLowerCase s')
  end.

Definition isSpace (c : ascii) : bool :=
  let n := nat_of_ascii c in
  ((9 <=? n) && (n <=? 13) || (n =? 32))%nat.

Fixpoint trimStart (s : string) : string :=
  match s with
  | EmptyString => EmptyString
  | String c s' => if isSpace c then trimStart s' else s
  end.

Fixpoint trimEnd (s : string) : string :=
  match s with
  | EmptyString => EmptyString
  | String c s' =>
      match trimEnd s' with
      | EmptyString => if isSpace c then EmptyString else String c EmptyString
      | t => String c t
      end
  end.

Definition trim (s : string) : string := trimEnd (trimStart s).

(** Every character of [s] is ASCII white space. *)
Fixpoint allSpace (s : string) : bool :=
  match s with
  | EmptyString => true
  | String c s' => isSpace c && allSpace s'
  end.

Definition startsWithSpace (s : string) : bool :=
  match s with
  | EmptyString => false
  | String c _ => isSpace c
  end.

(** The other case of an ASCII letter; any other character as it is. *)
Definition toggleCase (c : ascii) : ascii :=
  if isUpper c then ascii_of_nat (nat_of_ascii c + 32)
  else if isLower c then ascii_of_nat (nat_of_ascii c - 32)
  else c.

(** [s] with the case of its ASCII letters changed where [flags] says so. *)
Fixpoint recase (flags : list bool) (s : string) : string :=
  match flags, s with
  | flag :: flags', String c s' =>
      String (if flag then toggleCase c else c) (recase flags' s')
  | _, _ => s
  end.

End AsciiText.

(** ** The string methods of the engine *)

(** [String.prototype.toLowerCase] and [String.prototype.trim], as the
    engine that runs the component provides them. *)
Class Builtins : Type := {
  toLowerCase : string -> string;
  trim : string -> string
}.

(** What the proofs use of ECMAScript's definition of the two methods. *)
Class Ecma (B : Builtins) : Prop := {
  toLowerCase_ascii :
    forall s, AsciiText.isAscii s = true -> toLowerCase s = AsciiText.toLowerCase s;
  trim_ascii :
    forall s, AsciiText.isAscii s = true -> trim s = AsciiText.trim s;
  trim_idem :
    forall s, trim (trim s) = trim s
}.

(** An engine for ASCII text, to run the component on such text. *)
Definition asciiBuiltins : Builtins := {|
  toLowerCase := AsciiText.toLowerCase;
  trim := AsciiText.trim
|}.

(** ** Data types *)

Inductive ParticipationType : Type :=
| individual
| team.

Module ChallengeCard.
(** Modelled from the spec: the declaration of [ChallengeCard] lives in
    [types/challenge]; the fields are the ones the component reads, typed as
    the specification describes them (identifier, title, subtitle, icon
    string, pair of gradient colours). *)
Record t : Type := mk {
  id : Z;
  title : string;
  subtitle : string;
  image : string;
  gradient : string * string
}.
End ChallengeCard.

Record Author : Type := mkAuthor {
  name : string;
  avatar : string;
  username : string
}.

Module ChallengeSubmission.
(** [interface ChallengeSubmission]; [timestamp] is the time value of the
    [Date], [image] is [None] when the optional field is [undefined]. *)
Record t : Type := mk {
  id : string;
  challengeId : Z;
  challengeTitle : string;
  challengeIcon : string;
  text : string;
  image : option string;
  timestamp : Z;
  author : Author;
  likes : Z;
  comments : Z;
  shares : Z;
  participationType : ParticipationType
}.
End ChallengeSubmission.

Module View.
(** The text nodes and control states of the rendered tree that depend on
    the props or on the state; layout and styling are left out. *)
Record t : Type := mk {
  headerTitle : string;
  shareDisabled : bool;
  shareLabel : string;
  challengeIcon : string;
  challengeTitle : string;
  challengeCaption : string;
  inputLabel : string;
  inputValue : string;
  inputPlaceholder : string;
  preview : option string;
  tipsHeading : string;
  tipsBody : string
}.
End View.

Section Screen.

Context {engine : Builtins}.

(** ** Theme resolver *)

Record ThemeCopy : Type := mkThemeCopy {
  submitTitle : string;
  inputLabel : string;
  placeholder : string;
  individualTips : string;
  teamTips : string
}.

Definition peaceTheme : ThemeCopy := {|
  submitTitle := "Share Your Peaceful Moment";
  inputLabel := "Describe your peaceful experience";
  placeholder := "Tell the community about your peaceful moment... How did it make you feel?";
  individualTips := "• Share what brought you inner peace" ++ nl ++ "• Describe the emotions you felt" ++ nl ++ "• Inspire others to find their own calm";
  teamTips := "• Share how your team found peace together" ++ nl ++ "• Describe your collective experience" ++ nl ++ "• Inspire other groups to find harmony"
|}.

Definition adventureTheme : ThemeCopy := {|
  submitTitle := "Share Your Adventure";
  inputLabel := "Tell us about your adventure";
  placeholder := "Share your exciting adventure... What made it memorable?";
  individualTips := "• Describe the highlights of your journey" ++ nl ++ "• Share what you discovered about yourself" ++ nl ++ "• Inspire others to explore new horizons";
  teamTips := "• Share how your team conquered the adventure" ++ nl ++ "• Describe your teamwork moments" ++ nl ++ "• Inspire other groups to explore together"
|}.

Definition gratitudeTheme : ThemeCopy := {|
  submitTitle := "Share What You're Grateful For";
  inputLabel := "Express your gratitude";
  placeholder := "Share what filled your heart with gratitude today...";
  individualTips := "• Reflect on what truly matters to you" ++ nl ++ "• Share specific moments of appreciation" ++ nl ++ "• Inspire others to find gratitude in their lives";
  teamTips := "• Share what your team is collectively grateful for" ++ nl ++ "• Describe moments of shared appreciation" ++ nl ++ "• Inspire other groups to practice gratitude together"
|}.

Definition creativeTheme : ThemeCopy := {|
  submitTitle := "Share Your Creative Expression";
  inputLabel := "Describe your creative process";
  placeholder := "Tell us about your creative journey... What inspired you?";
  individualTips := "• Share your creative inspiration" ++ nl ++ "• Describe your artistic process" ++ nl ++ "• Inspire others to express their creativity";
  teamTips := "• Share how your team created together" ++ nl ++ "• Describe your collaborative process" ++ nl ++ "• Inspire other groups to create as one"
|}.

Definition fitnessTheme : ThemeCopy := {|
  submitTitle := "Share Your Wellness Journey";
  inputLabel := "Describe your wellness experience";
  placeholder := "Tell us about your wellness moment... How did it energize you?";
  individualTips := "• Share how this boosted your wellbeing" ++ nl ++ "• Describe the energy you gained" ++ nl ++ "• Inspire others to prioritize their health";
  teamTips := "• Share how your team motivated each other" ++ nl ++ "• Describe your collective energy" ++ nl ++ "• Inspire other groups to get active together"
|}.

Definition genericTheme : ThemeCopy := {|
  submitTitle := "Share Your Experience";
  inputLabel := "Tell us about your experience";
  placeholder := "Share your meaningful moment with the community...";
  individualTips := "• Share what made this moment special" ++ nl ++ "• Describe how it impacted you" ++ nl ++ "• Inspire others to try this challenge";
  teamTips := "• Share how your team experienced this together" ++ nl ++ "• Describe your collective journey" ++ nl ++ "• Inspire other groups to join the challenge"
|}.

(** [getChallengeTheme], on an argument of its declared type [string]. *)
Definition getChallengeTheme (challengeTitle : string) : ThemeCopy :=
  let title := toLowerCase challengeTitle in
  if includes title "peace" || includes title "meditation" || includes title "mindful" then
    peaceTheme
  else if includes title "adventure" || includes title "explore" || includes title "journey" then
    adventureTheme
  else if includes title "gratitude" || includes title "thankful" || includes title "appreciate" then
    gratitudeTheme
  else if includes title "creative" || includes title "art" || includes title "create" then
    creativeTheme
  else if includes title "fitness" || includes title "workout" || includes title "health" then
    fitnessTheme
  else
    genericTheme.

(** [getChallengeTheme] on the value that arrives at run time, where the
    type annotations are erased: [None] is [null], on which the method call
    [challengeTitle.toLowerCase()] of the first line throws a [TypeError]. *)
Definition getChallengeTheme_rt (challengeTitle : option string) : Completion ThemeCopy :=
  match challengeTitle with
  | None => Throw TypeError
  | Some s => Normal (getChallengeTheme s)
  end.

(** *** The keyword table, as the specification words it *)

Inductive ThemeGroup : Type :=
| Peace
| Adventure
| Gratitude
| Creative
| Fitness.

Definition allGroups : list ThemeGroup :=
  [Peace; Adventure; Gratitude; Creative; Fitness].

Definition keywords (g : ThemeGroup) : list string :=
  match g with
  | Peace => ["peace"; "meditation"; "mindful"]
  | Adventure => ["adventure"; "explore"; "journey"]
  | Gratitude => ["gratitude"; "thankful"; "appreciate"]
  | Creative => ["creative"; "art"; "create"]
  | Fitness => ["fitness"; "workout"; "health"]
  end.

Definition themeOf (g : ThemeGroup) : ThemeCopy :=
  match g with
  | Peace => peaceTheme
  | Adventure => adventureTheme
  | Gratitude => gratitudeTheme
  | Creative => creativeTheme
  | Fitness => fitnessTheme
  end.

(** Position in the fixed priority order. *)
Definition priority (g : ThemeGroup) : nat :=
  match g with
  | Peace => 0
  | Adventure => 1
  | Gratitude => 2
  | Creative => 3
  | Fitness => 4
  end.

(** [kw], a keyword in small letters, occurs in [title] at some position,
    letter case ignored: it occurs in [title] lower-cased. *)
Definition occursIn (kw title : string) : Prop :=
  exists pre post, toLowerCase title = pre ++ kw ++ post.

(** A keyword of group [g] appears in [title]. *)
Definition appearsIn (g : ThemeGroup) (title : string) : Prop :=
  exists kw, In kw (keywords g) /\ occursIn kw title.

(** The decision procedure for [appearsIn]. *)
Definition groupMatches (g : ThemeGroup) (title : string) : bool :=
  existsb (includes (toLowerCase title)) (keywords g).

(** ** Data model of the screen *)

(** The three [useState] cells of the component. *)
Record Screen : Type := mkScreen {
  text : string;
  selectedImage : option string;
  isSubmitting : bool
}.

(** What the component does to the outside, in the order it does it. *)
Inductive Effect : Type :=
| Alert_alert (title message : string)
| Date_now (t : Z)
| new_Date (t : Z)
| setTimeout (ms : Z)
| onSubmit_called (submission : ChallengeSubmission.t)
| onClose_called.

(** The component's state and its environment: the wall clock as the
    sequence of values its successive readings return, and the effects
    performed so far.  [dismissed] records that [onClose] has been called
    and has returned: the host then takes the screen down. *)
Record World : Type := mkWorld {
  screen : Screen;
  dismissed : bool;
  clock : nat -> Z;
  reads : nat;
  trace : list Effect
}.

(** [interface Props]; a callback of the host either returns or throws. *)
Record Props : Type := mkProps {
  challenge : ChallengeCard.t;
  participationType : ParticipationType;
  onSubmit : ChallengeSubmission.t -> Completion unit;
  onClose : Completion unit
}.

(** ** State and exceptions *)

Definition M (A : Type) : Type := World -> Completion A * World.

Definition ret {A} (a : A) : M A := fun w => (Normal a, w).

Definition bind {A B} (m : M A) (k : A -> M B) : M B :=
  fun w =>
    match m w with
    | (Normal a, w') => k a w'
    | (Throw e, w') => (Throw e, w')
    end.

Declare Scope js_scope.
Delimit Scope js_scope with js.
Notation "x <- m ;; k" := (bind m (fun x => k))
  (at level 61, m at next level, right associativity) : js_scope.
Notation "m ;; k" := (bind m (fun _ => k))
  (at level 61, right associativity) : js_scope.
Local Open Scope js_scope.

Definition throw {A} (e : Exn) : M A := fun w => (Throw e, w).

(** [try { body } catch (error) { handler }] *)
Definition tryCatch {A} (body : M A) (handler : Exn -> M A) : M A :=
  fun w =>
    match body w with
    | (Normal a, w') => (Normal a, w')
    | (Throw e, w') => handler e w'
    end.

(** [try { body } finally { fin }] *)
Definition tryFinally {A} (body : M A) (fin : M unit) : M A :=
  fun w =>
    match body w with
    | (r, w') =>
        match fin w' with
        | (Normal _, w'') => (r, w'')
        | (Throw e, w'') => (Throw e, w'')
        end
    end.

Definition getScreen : M Screen := fun w => (Normal (screen w), w).

Definition setScreen (f : Screen -> Screen) : M unit :=
  fun w =>
    (Normal tt,
     {| screen := f (screen w); dismissed := dismissed w;
        clock := clock w; reads := reads w; trace := trace w |}).

Definition emit (e : Effect) : M unit :=
  fun w =>
    (Normal tt,
     {| screen := screen w; dismissed := dismissed w;
        clock := clock w; reads := reads w; trace := trace w ++ [e] |}).

(** One reading of the wall clock. *)
Definition readClock : M Z :=
  fun w =>
    (Normal (clock w (reads w)),
     {| screen := screen w; dismissed := dismissed w;
        clock := clock w; reads := S (reads w); trace := trace w |}).

Definition setText (s : string) : M unit :=
  setScreen (fun sc =>
    {| text := s; selectedImage := selectedImage sc; isSubmitting := isSubmitting sc |}).

Definition setSelectedImage (v : option string) : M unit :=
  setScreen (fun sc =>
    {| text := text sc; selectedImage := v; isSubmitting := isSubmitting sc |}).

Definition setIsSubmitting (b : bool) : M unit :=
  setScreen (fun sc =>
    {| text := text sc; selectedImage := selectedImage sc; isSubmitting := b |}).

(** [Alert.alert(title, message)] *)
Definition alert (title message : string) : M unit :=
  emit (Alert_alert title message).

(** [Date.now()] *)
Definition dateNow : M Z :=
  t <- readClock ;; emit (Date_now t) ;; ret t.

(** [new Date()] *)
Definition newDate : M Z :=
  t <- readClock ;; emit (new_Date t) ;; ret t.

(** [onSubmit(submission)] *)
Definition callOnSubmit (p : Props) (submission : ChallengeSubmission.t) : M unit :=
  emit (onSubmit_called submission) ;;
  match onSubmit p submission with
  | Normal _ => ret tt
  | Throw e => throw e
  end.

(** [onClose()]; when the host returns, the screen is gone. *)
Definition callOnClose (p : Props) : M unit :=
  emit onClose_called ;;
  match onClose p with
  | Normal _ =>
      fun w =>
        (Normal tt,
         {| screen := screen w; dismissed := true;
            clock := clock w; reads := reads w; trace := trace w |})
  | Throw e => throw e
  end.

(** ** The submit handler *)

Definition placeholderAuthor : Author := {|
  name := "You";
  avatar := "https://images.unsplash.com/photo-1472099645785-5658abf4ff4e?w=100&h=100&fit=crop&crop=face";
  username := "@you"
|}.

(** [selectedImage || undefined] *)
Definition orUndefined (v : option string) : option string :=
  if truthyOrNull v then v else None.

(** [handleSubmit] from its first line to the [await] on the timer.  The
    result is [None] when the handler has returned, and the submission held
    by the suspended handler when it waits for the timer.  Nothing between
    the opening of the [try] block and the [await] throws. *)
Definition handleSubmit (p : Props) : M (option ChallengeSubmission.t) :=
  sc <- getScreen ;;
  if negb (truthy (trim (text sc))) && negb (truthyOrNull (selectedImage sc)) then
    alert "Empty post" "Please add some text or an image to share your moment." ;;
    ret None
  else
    setIsSubmitting true ;;
    id <- dateNow ;;
    timestamp <- newDate ;;
    let submission := {|
      ChallengeSubmission.id := toString id;
      ChallengeSubmission.challengeId := ChallengeCard.id (challenge p);
      ChallengeSubmission.challengeTitle := ChallengeCard.title (challenge p);
      ChallengeSubmission.challengeIcon := ChallengeCard.image (challenge p);
      ChallengeSubmission.text := trim (text sc);
      ChallengeSubmission.image := orUndefined (selectedImage sc);
      ChallengeSubmission.timestamp := timestamp;
      ChallengeSubmission.author := placeholderAuthor;
      ChallengeSubmission.likes := 0;
      ChallengeSubmission.comments := 0;
      ChallengeSubmission.shares := 0;
      ChallengeSubmission.participationType := participationType p
    |} in
    emit (setTimeout 1000) ;;
    ret (Some submission).

(** [handleSubmit] from the moment the timer resolves: the rest of the
    [try] block, its [catch] and its [finally]. *)
Definition handleSubmit_resume (p : Props) (submission : ChallengeSubmission.t) : M unit :=
  tryFinally
    (tryCatch
       (callOnSubmit p submission ;;
        alert "Success!" "Your moment has been shared with the community! ✨" ;;
        callOnClose p)
       (fun _ => alert "Error" "Failed to submit your post. Please try again."))
    (setIsSubmitting false).

(** ** The screen as an event loop *)

(** What the permission request and the picker, taken together, answer. *)
Inductive PickerResult : Type :=
| PermissionDenied
| Canceled
| Asset (uri : string).

(** [pickImage], once both of its awaits have resolved. *)
Definition pickImage (r : PickerResult) : M unit :=
  match r with
  | PermissionDenied =>
      alert "Permission needed" "Permission to access camera roll is required!"
  | Canceled => ret tt
  | Asset uri => setSelectedImage (Some uri)
  end.

(** [takePhoto], once both of its awaits have resolved. *)
Definition takePhoto (r : PickerResult) : M unit :=
  match r with
  | PermissionDenied =>
      alert "Permission needed" "Camera permission is required!"
  | Canceled => ret tt
  | Asset uri => setSelectedImage (Some uri)
  end.

Inductive Event : Type :=
| ChangeText (s : string)
| GalleryAnswered (r : PickerResult)
| CameraAnswered (r : PickerResult)
| PressRemoveImage
| PressShare
| PressClose
| TimerFired.

(** A screen instance: its world, and the submissions held by handlers
    that wait for their timer, oldest first. *)
Record Instance : Type := mkInstance {
  world : World;
  inFlight : list ChallengeSubmission.t
}.

Definition run {A} (m : M A) (i : Instance) : Instance :=
  {| world := snd (m (world i)); inFlight := inFlight i |}.

(** One turn of the event loop.  The controls exist while the screen is
    mounted; the Share control is [disabled={isSubmitting}]; the control
    that removes the image is rendered under [selectedImage &&]; a timer
    fires whether the screen is mounted or not. *)
Definition step (p : Props) (ev : Event) (i : Instance) : Instance :=
  match ev with
  | TimerFired =>
      match inFlight i with
      | [] => i
      | submission :: rest =>
          {| world := snd (handleSubmit_resume p submission (world i));
             inFlight := rest |}
      end
  | _ =>
      if dismissed (world i) then i else
      match ev with
      | ChangeText s => run (setText s) i
      | GalleryAnswered r => run (pickImage r) i
      | CameraAnswered r => run (takePhoto r) i
      | PressRemoveImage =>
          if truthyOrNull (selectedImage (screen (world i)))
          then run (setSelectedImage None) i else i
      | PressShare =>
          if isSubmitting (screen (world i)) then i else
          match handleSubmit p (world i) with
          | (Normal (Some submission), w') =>
              {| world := w'; inFlight := inFlight i ++ [submission] |}
          | (_, w') => {| world := w'; inFlight := inFlight i |}
          end
      | PressClose => run (callOnClose p) i
      | TimerFired => i
      end
  end.

Definition initialScreen : Screen :=
  {| text := EmptyString; selectedImage := None; isSubmitting := false |}.

(** A freshly mounted screen, on a given clock. *)
Definition mount (clk : nat -> Z) : Instance :=
  {| world := {| screen := initialScreen; dismissed := false;
                 clock := clk; reads := 0; trace := [] |};
     inFlight := [] |}.

Fixpoint steps (p : Props) (evs : list Event) (i : Instance) : Instance :=
  match evs with
  | [] => i
  | ev :: evs' => steps p evs' (step p ev i)
  end.

(** The states a screen instance can be in. *)
Inductive reachable (p : Props) : Instance -> Prop :=
| reachable_mount clk : reachable p (mount clk)
| reachable_step ev i : reachable p i -> reachable p (step p ev i).

(** The lifecycle state of the specification, read off the world. *)
Inductive Phase : Type :=
| Idle
| Submitting
| Closed.

Definition phase (w : World) : Phase :=
  if dismissed w then Closed
  else if isSubmitting (screen w) then Submitting
  else Idle.

(** The Share control is disabled. *)
Definition shareDisabled (w : World) : bool := isSubmitting (screen w).

(** ** Vocabulary of the specification *)

(** *** Themes *)

(** [g] is, among the groups with a keyword in [title], the one that comes
    first in the priority order. *)
Definition firstGroupIn (g : ThemeGroup) (title : string) : Prop :=
  appearsIn g title /\
  forall g', appearsIn g' title -> priority g <= priority g'.

(** *** Drafts *)

(** An image reference is present in the draft: [selectedImage] is truthy. *)
Definition imagePresent (sc : Screen) : Prop :=
  truthyOrNull (selectedImage sc) = true.

(** The draft has neither text, once trimmed, nor image. *)
Definition emptyDraft (sc : Screen) : Prop :=
  trim (text sc) = EmptyString /\ ~ imagePresent sc.

Definition emptyPostAlert : Effect :=
  Alert_alert "Empty post" "Please add some text or an image to share your moment.".

(** The handler turns the draft down: it tells the user and returns. *)
Definition rejectsAsEmpty (p : Props) (w : World) : Prop :=
  fst (handleSubmit p w) = Normal None /\
  trace (snd (handleSubmit p w)) = (trace w ++ [emptyPostAlert])%list.

(** The handler builds [submission] and suspends on the timer. *)
Definition builds (p : Props) (w : World) (submission : ChallengeSubmission.t) : Prop :=
  fst (handleSubmit p w) = Normal (Some submission).

(** *** Lifecycle *)

Definition errorAlert : Effect :=
  Alert_alert "Error" "Failed to submit your post. Please try again.".

(** The submissions handed to the host, oldest first. *)
Fixpoint submitted (tr : list Effect) : list ChallengeSubmission.t :=
  match tr with
  | [] => []
  | onSubmit_called s :: tr' => s :: submitted tr'
  | _ :: tr' => submitted tr'
  end.

(** Nothing is in flight, or the screen is submitting and one submission is. *)
Definition singleFlight (i : Instance) : Prop :=
  inFlight i = [] \/
  (isSubmitting (screen (world i)) = true /\ exists s, inFlight i = [s]).

(** *** Identifiers *)

(** The values [Date.now()] has returned, oldest first. *)
Fixpoint issued (tr : list Effect) : list Z :=
  match tr with
  | [] => []
  | Date_now t :: tr' => t :: issued tr'
  | _ :: tr' => issued tr'
  end.

(** Later readings of the clock are larger. *)
Definition increasing (clk : nat -> Z) : Prop :=
  forall n m, n < m -> (clk n < clk m)%Z.

(** Every value issued so far is a past reading of the clock. *)
Definition issuedFromPast (i : Instance) : Prop :=
  Forall (fun t => exists k, k < reads (world i) /\ t = clock (world i) k)
         (issued (trace (world i))).

(** ** Sample inputs *)

Definition sampleCard : ChallengeCard.t := {|
  ChallengeCard.id := 7;
  ChallengeCard.title := "Morning Meditation Challenge";
  ChallengeCard.subtitle := "Find your calm";
  ChallengeCard.image := "*";
  ChallengeCard.gradient := ("#667eea", "#764ba2")
|}.

Definition acceptingHost (mode : ParticipationType) : Props := {|
  challenge := sampleCard;
  participationType := mode;
  onSubmit := fun _ => Normal tt;
  onClose := Normal tt
|}.

Definition failingHost (mode : ParticipationType) : Props := {|
  challenge := sampleCard;
  participationType := mode;
  onSubmit := fun _ => Throw HostError;
  onClose := Normal tt
|}.

Definition tickingClock (n : nat) : Z := 1700000000000 + Z.of_nat n.

(** A wall clock that is set back between two presses of Share. *)
Definition resetClock (n : nat) : Z := 1700000000000 + Z.of_nat (n mod 2).

Definition draftWorld (clk : nat -> Z) (t : string) (img : option string) : World := {|
  screen := {| text := t; selectedImage := img; isSubmitting := false |};
  dismissed := false;
  clock := clk;
  reads := 0;
  trace := []
|}.

(** ** The picker handlers, await by await *)

(** What the two permission requests of [expo-image-picker] resolve to. *)
Record PermissionResponse : Type := mkPermissionResponse {
  granted : bool
}.

Record ImagePickerAsset : Type := mkImagePickerAsset {
  uri : string
}.

(** What the two launchers resolve to; [assets] is [None] for [null]. *)
Record ImagePickerResult : Type := mkImagePickerResult {
  canceled : bool;
  assets : option (list ImagePickerAsset)
}.

(** [setSelectedImage(result.assets[0].uri)] under [if (!result.canceled)]:
    reading index 0 of [null], or [uri] of the [undefined] an empty array
    gives, throws. *)
Definition useResult (result : ImagePickerResult) : M unit :=
  if negb (canceled result) then
    match assets result with
    | Some (asset :: _) => setSelectedImage (Some (uri asset))
    | Some [] => throw TypeError
    | None => throw TypeError
    end
  else ret tt.

(** [pickImage], given what its two awaits resolve to; the launcher is
    reached only when the permission test lets the handler through. *)
Definition pickImage_async (permissionResult : PermissionResponse)
    (result : ImagePickerResult) : M unit :=
  if Bool.eqb (granted permissionResult) false then
    alert "Permission needed" "Permission to access camera roll is required!"
  else
    useResult result.

(** [takePhoto], given what its two awaits resolve to. *)
Definition takePhoto_async (permissionResult : PermissionResponse)
    (result : ImagePickerResult) : M unit :=
  if Bool.eqb (granted permissionResult) false then
    alert "Permission needed" "Camera permission is required!"
  else
    useResult result.

(** The answer of the permission request and the launcher taken together,
    when the launcher's result is one the handlers can use. *)
Definition answer (permissionResult : PermissionResponse)
    (result : ImagePickerResult) : option PickerResult :=
  if negb (granted permissionResult) then Some PermissionDenied
  else if canceled result then Some Canceled
  else
    match assets result with
    | Some (asset :: _) => Some (Asset (uri asset))
    | _ => None
    end.

(** ** What the component renders *)

(** A participation type, as the string it is. *)
Definition modeName (mode : ParticipationType) : string :=
  match mode with
  | individual => "individual"
  | team => "team"
  end.

(** The [return] of [ChallengeSubmissionPage]. *)
Definition render (p : Props) (sc : Screen) : View.t :=
  let theme := getChallengeTheme (ChallengeCard.title (challenge p)) in
  {| View.headerTitle := submitTitle theme;
     View.shareDisabled := isSubmitting sc;
     View.shareLabel := if isSubmitting sc then "Sharing..." else "Share";
     View.challengeIcon := ChallengeCard.image (challenge p);
     View.challengeTitle := ChallengeCard.title (challenge p);
     View.challengeCaption :=
       ChallengeCard.subtitle (challenge p) ++ " • " ++
       modeName (participationType p) ++ " participation";
     View.inputLabel := inputLabel theme;
     View.inputValue := text sc;
     View.inputPlaceholder := placeholder theme;
     View.preview := if truthyOrNull (selectedImage sc) then selectedImage sc else None;
     View.tipsHeading := "💡 Tips for a great " ++ modeName (participationType p) ++ " post:";
     View.tipsBody :=
       match participationType p with
       | individual => individualTips theme
       | team => teamTips theme
       end |}.

(** ** More vocabulary *)

(** The submissions built so far by a screen instance, oldest first: those
    handed to the host, then those still in flight. *)
Definition builtSoFar (i : Instance) : list ChallengeSubmission.t :=
  (submitted (trace (world i)) ++ inFlight i)%list.

(** A record as [handleSubmit] makes them for props [p]: text that trimming
    leaves as it is, text or image, no empty image, zero counters, the
    props' challenge and mode, the placeholder author. *)
Definition wellFormed (p : Props) (s : ChallengeSubmission.t) : Prop :=
  trim (ChallengeSubmission.text s) = ChallengeSubmission.text s /\
  (ChallengeSubmission.text s <> EmptyString \/
   exists u, ChallengeSubmission.image s = Some u) /\
  ChallengeSubmission.image s <> Some EmptyString /\
  ChallengeSubmission.likes s = 0%Z /\
  ChallengeSubmission.comments s = 0%Z /\
  ChallengeSubmission.shares s = 0%Z /\
  ChallengeSubmission.author s = placeholderAuthor /\
  ChallengeSubmission.participationType s = participationType p /\
  ChallengeSubmission.challengeId s = ChallengeCard.id (challenge p) /\
  ChallengeSubmission.challengeTitle s = ChallengeCard.title (challenge p) /\
  ChallengeSubmission.challengeIcon s = ChallengeCard.image (challenge p).

(** The effects that are calls of [onClose]. *)
Fixpoint closes (tr : list Effect) : nat :=
  match tr with
  | [] => 0
  | onClose_called :: tr' => S (closes tr')
  | _ :: tr' => closes tr'
  end.

(** The screen is submitting and one submission is in flight, or it is not
    and none is. *)
Definition exactFlight (i : Instance) : Prop :=
  (isSubmitting (screen (world i)) = false /\ inFlight i = []) \/
  (isSubmitting (screen (world i)) = true /\ exists s, inFlight i = [s]).

Definition successAlert : Effect :=
  Alert_alert "Success!" "Your moment has been shared with the community! ✨".

(** Evaluates the resolver on a title of ASCII characters. *)
Ltac resolve_ascii_title :=
  cbv beta iota zeta delta [getChallengeTheme_rt getChallengeTheme];
  rewrite toLowerCase_ascii by reflexivity; reflexivity.

Ltac unfold_handler :=
  unfold handleSubmit, handleSubmit_resume, tryFinally, tryCatch,
    callOnSubmit, callOnClose, dateNow, newDate, alert, setIsSubmitting,
    setSelectedImage, setText, setScreen, getScreen, readClock, emit,
    throw, bind, ret.

(** * Properties *)

(** ** Strings *)

Section StringFacts.

Lemma startsWith_iff (s p : string) :
  startsWith s p = true <-> exists post, s = p ++ post.
Proof.
  revert s; induction p as [|a p IH]; intros s; simpl.
  - split; [intros _; now exists s | reflexivity].
  - destruct s as [|b s].
    + split; [discriminate | intros [post H]; discriminate].
    + rewrite andb_true_iff, Ascii.eqb_eq, IH. split.
      * intros [-> [post ->]]. now exists post.
      * intros [post H]. injection H as -> ->. split; [reflexivity | now exists post].
Qed.

Lemma includes_iff (s sub : string) :
  includes s sub = true <-> exists pre post, s = pre ++ sub ++ post.
Proof.
  induction s as [|c s IH]; simpl; rewrite orb_true_iff, startsWith_iff.
  - split.
    + intros [[post H] | H]; [|discriminate]. now exists EmptyString, post.
    + intros [pre [post H]]. left. destruct pre as [|? ?]; [|discriminate].
      now exists post.
  - rewrite IH. split.
    + intros [[post H] | [pre [post H]]].
      * now exists EmptyString, post.
      * exists (String c pre), post. simpl. now rewrite H.
    + intros [pre [post H]]. destruct pre as [|d pre]; simpl in H.
      * left. now exists post.
      * right. injection H as _ ->. now exists pre, post.
Qed.

Lemma occursIn_includes (kw title : string) :
  occursIn kw title <-> includes (toLowerCase title) kw = true.
Proof. unfold occursIn. now rewrite includes_iff. Qed.

Lemma truthy_false_iff (s : string) : truthy s = false <-> s = EmptyString.
Proof. destruct s; simpl; split; congruence. Qed.

Lemma to_int_proper (z : Z) :
  Z.to_int z <> Decimal.Pos Decimal.Nil /\ Z.to_int z <> Decimal.Neg Decimal.Nil.
Proof.
  destruct z as [|q|q]; simpl; split; try discriminate;
    intros [= H]; now apply (DecimalPos.Unsigned.to_uint_nonnil q).
Qed.

Lemma toString_inj (a b : Z) : toString a = toString b -> a = b.
Proof.
  unfold toString. intros H.
  apply DecimalZ.to_int_inj.
  destruct (to_int_proper a) as [Ha1 Ha2], (to_int_proper b) as [Hb1 Hb2].
  pose proof (NilZero.isi _ Ha1 Ha2) as Ea.
  pose proof (NilZero.isi _ Hb1 Hb2) as Eb.
  rewrite H in Ea. congruence.
Qed.

End StringFacts.

(** ** Theme resolver *)

Section ThemeResolver.

(** The resolver's test for a group decides that one of the group's
    keywords occurs in the title, letter case ignored. *)
Lemma groupMatches_appearsIn (g : ThemeGroup) (title : string) :
  groupMatches g title = true <-> appearsIn g title.
Proof.
  unfold groupMatches, appearsIn. rewrite existsb_exists.
  split; intros (kw & Hin & H); exists kw; split; trivial;
    now apply occursIn_includes.
Qed.

Lemma groupMatches_not_appearsIn (g : ThemeGroup) (title : string) :
  groupMatches g title = false <-> ~ appearsIn g title.
Proof.
  rewrite <- groupMatches_appearsIn. now destruct (groupMatches g title).
Qed.

(** The chain of conditionals is a first-match search through the table. *)
Lemma getChallengeTheme_table (title : string) :
  getChallengeTheme title =
  match find (fun g => groupMatches g title) allGroups with
  | Some g => themeOf g
  | None => genericTheme
  end.
Proof.
  unfold getChallengeTheme, groupMatches, allGroups.
  cbn [find existsb keywords].
  generalize (toLowerCase title) as t; intros t.
  repeat match goal with
         | |- context [includes t ?k] => destruct (includes t k); cbn; try reflexivity
         end.
Qed.

Lemma getChallengeTheme_first (title : string) (g : ThemeGroup) :
  appearsIn g title ->
  (forall g', priority g' < priority g -> ~ appearsIn g' title) ->
  getChallengeTheme title = themeOf g.
Proof.
  intros Hg Hlt. rewrite getChallengeTheme_table.
  apply groupMatches_appearsIn in Hg.
  assert (Hb : forall g', priority g' < priority g -> groupMatches g' title = false).
  { intros g' L. apply groupMatches_not_appearsIn. now apply Hlt. }
  unfold allGroups; cbn [find].
  destruct g; cbn [priority] in Hb;
    repeat match goal with
           | |- context [if groupMatches ?x title then _ else _] =>
               first [rewrite Hg | rewrite (Hb x) by (cbn; lia)]
           end; reflexivity.
Qed.

Lemma getChallengeTheme_none (title : string) :
  (forall g, ~ appearsIn g title) -> getChallengeTheme title = genericTheme.
Proof.
  intros H. rewrite getChallengeTheme_table. unfold allGroups; cbn [find].
  repeat match goal with
         | |- context [if groupMatches ?x title then _ else _] =>
             rewrite (proj2 (groupMatches_not_appearsIn x title) (H x))
         end.
  reflexivity.
Qed.

Lemma priority_inj (g g' : ThemeGroup) : priority g = priority g' -> g = g'.
Proof. destruct g, g'; simpl; intros H; try reflexivity; discriminate. Qed.

Lemma themeOf_inj (g g' : ThemeGroup) : themeOf g = themeOf g' -> g = g'.
Proof. destruct g, g'; intros H; try reflexivity; discriminate. Qed.

Lemma themeOf_not_generic (g : ThemeGroup) : themeOf g <> genericTheme.
Proof. destruct g; discriminate. Qed.

End ThemeResolver.

Lemma firstGroupIn_exists (title : string) (g0 : ThemeGroup) :
  appearsIn g0 title -> exists g, firstGroupIn g title.
Proof.
  intros H0. apply groupMatches_appearsIn in H0.
  assert (pick : forall g,
             groupMatches g title = true ->
             (forall g', priority g' < priority g -> groupMatches g' title = false) ->
             firstGroupIn g title).
  { intros g Hg Hlt. split; [now apply groupMatches_appearsIn|].
    intros g' Hg'. apply groupMatches_appearsIn in Hg'.
    destruct (Nat.le_gt_cases (priority g) (priority g')) as [L|L]; [exact L|].
    rewrite (Hlt g' L) in Hg'. discriminate. }
  destruct (groupMatches Peace title) eqn:EP;
    [exists Peace; apply pick; trivial; intros g'; destruct g'; cbn; intros; (lia || assumption)|].
  destruct (groupMatches Adventure title) eqn:EA;
    [exists Adventure; apply pick; trivial; intros g'; destruct g'; cbn; intros; (lia || assumption)|].
  destruct (groupMatches Gratitude title) eqn:EG;
    [exists Gratitude; apply pick; trivial; intros g'; destruct g'; cbn; intros; (lia || assumption)|].
  destruct (groupMatches Creative title) eqn:EC;
    [exists Creative; apply pick; trivial; intros g'; destruct g'; cbn; intros; (lia || assumption)|].
  destruct (groupMatches Fitness title) eqn:EF;
    [exists Fitness; apply pick; trivial; intros g'; destruct g'; cbn; intros; (lia || assumption)|].
  destruct g0; congruence.
Qed.

Lemma firstGroupIn_theme (title : string) (g : ThemeGroup) :
  firstGroupIn g title -> getChallengeTheme title = themeOf g.
Proof.
  intros [Hg Hmin]. apply getChallengeTheme_first; [exact Hg|].
  intros g' L Hg'. specialize (Hmin g' Hg'). lia.
Qed.

(** C2.  When keywords of two or more theme groups appear in a title, there
    is a group that comes first in the priority order among those that
    appear, and the resolver returns the theme of that group; the title
    "Peaceful Adventure" resolves to the peace theme. *)
Theorem first_matching_group_wins :
  (forall title g1 g2,
      g1 <> g2 -> appearsIn g1 title -> appearsIn g2 title ->
      (exists g, firstGroupIn g title) /\
      (forall g, firstGroupIn g title -> getChallengeTheme title = themeOf g)) /\
  (Ecma engine -> getChallengeTheme "Peaceful Adventure" = themeOf Peace).
Proof.
  split; [|intros ecma; resolve_ascii_title].
  intros title g1 g2 _ H1 _. split.
  - exact (firstGroupIn_exists title g1 H1).
  - intros g. apply firstGroupIn_theme.
Qed.

(** C3.  A title in which a keyword of exactly one theme group occurs, at
    any position and whatever the case of its letters, resolves to the theme
    of that group; "Morning Meditation Challenge" and "MINDFUL Monday"
    resolve to the peace theme. *)
Theorem single_group_theme :
  (forall title g,
      appearsIn g title ->
      (forall g', g' <> g -> ~ appearsIn g' title) ->
      getChallengeTheme title = themeOf g) /\
  (Ecma engine ->
   getChallengeTheme "Morning Meditation Challenge" = themeOf Peace /\
   getChallengeTheme "MINDFUL Monday" = themeOf Peace).
Proof.
  split; [|intros ecma; split; resolve_ascii_title].
  intros title g Hg Honly. apply getChallengeTheme_first; [exact Hg|].
  intros g' L. apply Honly. intros ->. lia.
Qed.

(** C4, as the code has it.  On every string the resolver returns a theme
    and does not throw; a title in which no keyword of any group occurs, the
    empty title among them, resolves to the generic theme. *)
Theorem resolver_total_on_strings :
  (forall title : string,
      exists theme, getChallengeTheme_rt (Some title) = Normal theme) /\
  (forall title : string,
      (forall g, ~ appearsIn g title) ->
      getChallengeTheme_rt (Some title) = Normal genericTheme) /\
  (Ecma engine ->
   getChallengeTheme_rt (Some EmptyString) = Normal genericTheme /\
   getChallengeTheme_rt (Some "Random Challenge") = Normal genericTheme).
Proof.
  split; [|split; [|intros ecma; split; resolve_ascii_title]].
  - intros title. now exists (getChallengeTheme title).
  - intros title H. simpl. now rewrite (getChallengeTheme_none title H).
Qed.

(** ** Submission builder *)

Section SubmissionBuilder.

Variable p : Props.

Lemma emptyDraft_test (sc : Screen) :
  negb (truthy (trim (text sc))) && negb (truthyOrNull (selectedImage sc)) = true
  <-> emptyDraft sc.
Proof.
  unfold emptyDraft, imagePresent.
  rewrite andb_true_iff, !negb_true_iff, truthy_false_iff.
  now destruct (truthyOrNull (selectedImage sc)); intuition.
Qed.

Lemma emptyDraft_dec (sc : Screen) : emptyDraft sc \/ ~ emptyDraft sc.
Proof.
  rewrite <- emptyDraft_test.
  destruct (negb (truthy (trim (text sc))) && negb (truthyOrNull (selectedImage sc)));
    [now left | right; discriminate].
Qed.

Lemma handleSubmit_empty (w : World) :
  emptyDraft (screen w) ->
  handleSubmit p w =
  (Normal None,
   {| screen := screen w; dismissed := dismissed w; clock := clock w;
      reads := reads w; trace := trace w ++ [emptyPostAlert] |}).
Proof.
  intros H. apply emptyDraft_test in H. unfold_handler. now rewrite H.
Qed.

Lemma handleSubmit_nonempty (w : World) :
  ~ emptyDraft (screen w) ->
  exists submission w',
    handleSubmit p w = (Normal (Some submission), w') /\
    ChallengeSubmission.text submission = trim (text (screen w)) /\
    ChallengeSubmission.image submission = orUndefined (selectedImage (screen w)) /\
    screen w' =
      {| text := text (screen w); selectedImage := selectedImage (screen w);
         isSubmitting := true |} /\
    dismissed w' = dismissed w.
Proof.
  intros H. rewrite <- emptyDraft_test in H. apply not_true_is_false in H.
  unfold_handler. rewrite H. cbn. eexists; eexists. split; [reflexivity|].
  cbn. now repeat split.
Qed.

Lemma builds_nonempty (w : World) (submission : ChallengeSubmission.t) :
  builds p w submission -> ~ emptyDraft (screen w).
Proof.
  unfold builds. intros H E. rewrite (handleSubmit_empty w E) in H. discriminate.
Qed.

End SubmissionBuilder.

(** C1.  The builder turns a draft down as empty exactly when its trimmed
    text is empty and no image reference is present; every other draft is
    built into a record, and a draft with an image and no text gives a
    record with empty text and that image. *)
Theorem builder_rejects_iff_empty (p : Props) (w : World) :
  (rejectsAsEmpty p w <-> emptyDraft (screen w)) /\
  (~ emptyDraft (screen w) -> exists submission, builds p w submission) /\
  (forall uri,
      trim (text (screen w)) = EmptyString ->
      selectedImage (screen w) = Some uri -> uri <> EmptyString ->
      exists submission,
        builds p w submission /\
        ChallengeSubmission.text submission = EmptyString /\
        ChallengeSubmission.image submission = Some uri).
Proof.
  split; [|split].
  - split.
    + intros [H _]. destruct (emptyDraft_dec (screen w)) as [E|E]; [exact E|].
      destruct (handleSubmit_nonempty p w E) as (s & w' & Hs & _).
      rewrite Hs in H. discriminate.
    + intros E. unfold rejectsAsEmpty. now rewrite (handleSubmit_empty p w E).
  - intros E. destruct (handleSubmit_nonempty p w E) as (s & w' & Hs & _).
    exists s. unfold builds. now rewrite Hs.
  - intros uri Ht Hi Hne.
    assert (E : ~ emptyDraft (screen w)).
    { intros [_ E]. apply E. unfold imagePresent. rewrite Hi.
      destruct uri; [contradiction | reflexivity]. }
    destruct (handleSubmit_nonempty p w E) as (s & w' & Hs & Htext & Himg & _).
    exists s. unfold builds. rewrite Hs, Htext, Himg, Ht, Hi.
    destruct uri; [contradiction | now repeat split].
Qed.

(** C5.  The record built from an accepted draft carries the trimmed text,
    zero likes, comments and shares, the participation mode of the props,
    the challenge's id, title and icon, an identifier rendered from a
    reading of the clock taken during the build, the next reading of the
    clock as its timestamp, and the placeholder author. *)
Theorem built_record_fields (p : Props) (w : World) (submission : ChallengeSubmission.t) :
  builds p w submission ->
  ChallengeSubmission.text submission = trim (text (screen w)) /\
  ChallengeSubmission.likes submission = 0%Z /\
  ChallengeSubmission.comments submission = 0%Z /\
  ChallengeSubmission.shares submission = 0%Z /\
  ChallengeSubmission.participationType submission = participationType p /\
  ChallengeSubmission.challengeId submission = ChallengeCard.id (challenge p) /\
  ChallengeSubmission.challengeTitle submission = ChallengeCard.title (challenge p) /\
  ChallengeSubmission.challengeIcon submission = ChallengeCard.image (challenge p) /\
  ChallengeSubmission.id submission = toString (clock w (reads w)) /\
  ChallengeSubmission.timestamp submission = clock w (S (reads w)) /\
  ChallengeSubmission.author submission = placeholderAuthor /\
  trace (snd (handleSubmit p w)) =
    (trace w ++ [Date_now (clock w (reads w)); new_Date (clock w (S (reads w)));
                 setTimeout 1000])%list /\
  reads (snd (handleSubmit p w)) = S (S (reads w)).
Proof.
  unfold builds. unfold_handler.
  destruct (negb (truthy (trim (text (screen w)))) &&
            negb (truthyOrNull (selectedImage (screen w)))); cbn.
  - discriminate.
  - intros [= <-]. cbn. rewrite <- !app_assoc. now repeat split.
Qed.

(** C6.  A draft turned down as empty costs nothing: the handler returns
    after the alert, without reading the clock, calling the host or starting
    a timer, and with the three state cells as they were; pressing Share on
    an idle screen with such a draft leaves the screen idle, the draft as it
    was and nothing in flight. *)
Theorem rejected_draft_allocates_nothing (p : Props) :
  (forall w,
      emptyDraft (screen w) ->
      fst (handleSubmit p w) = Normal None /\
      screen (snd (handleSubmit p w)) = screen w /\
      reads (snd (handleSubmit p w)) = reads w /\
      dismissed (snd (handleSubmit p w)) = dismissed w /\
      trace (snd (handleSubmit p w)) = (trace w ++ [emptyPostAlert])%list) /\
  (forall i,
      phase (world i) = Idle ->
      emptyDraft (screen (world i)) ->
      phase (world (step p PressShare i)) = Idle /\
      screen (world (step p PressShare i)) = screen (world i) /\
      inFlight (step p PressShare i) = inFlight i /\
      reads (world (step p PressShare i)) = reads (world i) /\
      trace (world (step p PressShare i)) = (trace (world i) ++ [emptyPostAlert])%list).
Proof.
  split.
  - intros w E. rewrite (handleSubmit_empty p w E). cbn. now repeat split.
  - intros i Hidle E. unfold phase in Hidle. cbn [step].
    destruct (dismissed (world i)) eqn:Hd; [discriminate|].
    destruct (isSubmitting (screen (world i))) eqn:Hs; [discriminate|].
    rewrite (handleSubmit_empty p (world i) E). cbn. unfold phase. cbn.
    rewrite Hd, Hs. now repeat split.
Qed.

(** C10.  An empty string in [selectedImage] counts as no image: with empty
    trimmed text the draft is turned down, the handler returns what it
    returns when the image is [null], and no built record carries the empty
    string as its image. *)
Theorem empty_string_image_is_absent (p : Props) (w : World) :
  (selectedImage (screen w) = Some EmptyString ->
   (trim (text (screen w)) = EmptyString -> rejectsAsEmpty p w) /\
   fst (handleSubmit p w) = fst (handleSubmit p (snd (setSelectedImage None w))) /\
   (forall submission,
       builds p w submission -> ChallengeSubmission.image submission = None)) /\
  (forall submission,
      builds p w submission -> ChallengeSubmission.image submission <> Some EmptyString).
Proof.
  split.
  - intros Hi. split; [|split].
    + intros Ht.
      assert (E : emptyDraft (screen w)).
      { split; [exact Ht|]. unfold imagePresent. rewrite Hi. discriminate. }
      unfold rejectsAsEmpty. now rewrite (handleSubmit_empty p w E).
    + unfold_handler. cbn -[trim]. rewrite Hi. cbn -[trim].
      now destruct (truthy (trim (text (screen w)))).
    + unfold builds. unfold_handler. rewrite Hi. cbn.
      destruct (truthy (trim (text (screen w)))); cbn; [|discriminate].
      now intros s [= <-].
  - unfold builds. unfold_handler.
    destruct (negb (truthy (trim (text (screen w)))) &&
              negb (truthyOrNull (selectedImage (screen w)))); cbn; [discriminate|].
    intros s [= <-]. cbn. unfold orUndefined.
    destruct (selectedImage (screen w)) as [[|c u]|]; cbn; discriminate.
Qed.

(** ** Submission lifecycle *)

Section Lifecycle.

Variable p : Props.

Lemma resume_failure (w : World) (submission : ChallengeSubmission.t) (e : Exn) :
  onSubmit p submission = Throw e ->
  handleSubmit_resume p submission w =
  (Normal tt,
   {| screen := {| text := text (screen w);
                   selectedImage := selectedImage (screen w);
                   isSubmitting := false |};
      dismissed := dismissed w; clock := clock w; reads := reads w;
      trace := (trace w ++ [onSubmit_called submission]) ++ [errorAlert] |}).
Proof.
  intros H. unfold_handler. cbn. now rewrite H.
Qed.

Lemma resume_isSubmitting (w : World) (submission : ChallengeSubmission.t) :
  isSubmitting (screen (snd (handleSubmit_resume p submission w))) = false.
Proof.
  unfold_handler. cbn.
  destruct (onSubmit p submission); cbn; [destruct (onClose p)|]; reflexivity.
Qed.

Lemma step_singleFlight (ev : Event) (i : Instance) :
  singleFlight i -> singleFlight (step p ev i).
Proof.
  intros Inv.
  assert (keep : forall m : M unit,
             isSubmitting (screen (snd (m (world i)))) = isSubmitting (screen (world i)) ->
             singleFlight (run m i)).
  { intros m Hm. destruct Inv as [E | [Hs E]]; [now left | right].
    cbn. now rewrite Hm. }
  destruct ev; cbn [step];
    try (destruct (dismissed (world i)); [exact Inv|]).
  - apply keep. reflexivity.
  - apply keep. now destruct r.
  - apply keep. now destruct r.
  - destruct (truthyOrNull (selectedImage (screen (world i)))); [|exact Inv].
    apply keep. reflexivity.
  - destruct (isSubmitting (screen (world i))) eqn:Hs; [exact Inv|].
    destruct Inv as [E | [Hs' _]]; [|congruence].
    destruct (emptyDraft_dec (screen (world i))) as [D|D].
    + rewrite (handleSubmit_empty p _ D). now left.
    + destruct (handleSubmit_nonempty p _ D) as (s & w' & Hw & _ & _ & Hscr & _).
      rewrite Hw, E. right. cbn. rewrite Hscr. split; [reflexivity | now exists s].
  - apply keep. unfold_handler. cbn. now destruct (onClose p).
  - destruct (inFlight i) as [|s rest] eqn:E; [exact Inv|].
    destruct Inv as [E' | [_ [s' E']]]; [congruence|].
    left. cbn. congruence.
Qed.

Lemma reachable_singleFlight (i : Instance) :
  reachable p i -> singleFlight i.
Proof.
  induction 1 as [clk | ev i _ IH].
  - now left.
  - now apply step_singleFlight.
Qed.

End Lifecycle.

(** C7.  When the host's [onSubmit] throws while the screen is submitting,
    the handler ends with the screen idle and not dismissed, the text and
    the selected image as they were, the error alert shown after the call,
    [onClose] not called, and the Share control enabled again; a press of
    Share on an idle screen whose host throws brings the screen back, once
    the timer has fired, to the state it had before the press. *)
Theorem acceptance_failure_returns_to_idle (p : Props) :
  (forall i submission rest e,
      phase (world i) = Submitting ->
      inFlight i = submission :: rest ->
      onSubmit p submission = Throw e ->
      phase (world (step p TimerFired i)) = Idle /\
      text (screen (world (step p TimerFired i))) = text (screen (world i)) /\
      selectedImage (screen (world (step p TimerFired i))) =
        selectedImage (screen (world i)) /\
      dismissed (world (step p TimerFired i)) = false /\
      trace (world (step p TimerFired i)) =
        (trace (world i) ++ [onSubmit_called submission; errorAlert])%list /\
      shareDisabled (world (step p TimerFired i)) = false /\
      inFlight (step p TimerFired i) = rest) /\
  (forall i,
      phase (world i) = Idle ->
      inFlight i = [] ->
      ~ emptyDraft (screen (world i)) ->
      (forall s, exists e, onSubmit p s = Throw e) ->
      phase (world (steps p [PressShare; TimerFired] i)) = Idle /\
      screen (world (steps p [PressShare; TimerFired] i)) = screen (world i) /\
      dismissed (world (steps p [PressShare; TimerFired] i)) = false /\
      inFlight (steps p [PressShare; TimerFired] i) = []).
Proof.
  split.
  - intros i submission rest e Hph Hfl Hthrow. unfold phase in Hph.
    destruct (dismissed (world i)) eqn:Hd; [discriminate|].
    cbn [step]. rewrite Hfl, (resume_failure p _ _ e Hthrow). cbn.
    unfold phase, shareDisabled. cbn. rewrite Hd, <- app_assoc. now repeat split.
  - intros i Hph Hfl D Hhost. unfold phase in Hph.
    destruct (dismissed (world i)) eqn:Hd; [discriminate|].
    destruct (isSubmitting (screen (world i))) eqn:Hs; [discriminate|].
    destruct (handleSubmit_nonempty p _ D) as (s & w' & Hw & _ & _ & Hscr & Hdis).
    destruct (Hhost s) as [e He].
    cbn [steps step]. rewrite Hd, Hs, Hw, Hfl. cbn.
    rewrite (resume_failure p w' s e He). cbn.
    unfold phase. cbn. rewrite Hscr, Hdis, Hd. cbn.
    destruct (screen (world i)) as [t img sub]. cbn in Hs. subst sub.
    now repeat split.
Qed.

(** C8.  In every state a screen instance can reach, at most one
    submission is in flight; while one is, the screen is submitting, the
    Share control is disabled, and pressing it changes nothing. *)
Theorem at_most_one_in_flight (p : Props) (i : Instance) :
  reachable p i ->
  length (inFlight i) <= 1 /\
  (inFlight i <> [] ->
   isSubmitting (screen (world i)) = true /\
   shareDisabled (world i) = true /\
   step p PressShare i = i) /\
  (phase (world i) = Submitting ->
   shareDisabled (world i) = true /\ step p PressShare i = i).
Proof.
  intros R. apply reachable_singleFlight in R.
  assert (off : isSubmitting (screen (world i)) = true -> step p PressShare i = i).
  { intros Hs. cbn [step]. rewrite Hs. now destruct (dismissed (world i)). }
  split; [|split].
  - destruct R as [-> | [_ [s ->]]]; cbn; lia.
  - intros Hne. destruct R as [E | [Hs _]]; [contradiction|].
    unfold shareDisabled. auto.
  - unfold phase, shareDisabled. intros Hph.
    destruct (dismissed (world i)); [discriminate|].
    destruct (isSubmitting (screen (world i))) eqn:Hs; [auto | discriminate].
Qed.

(** ** Identifiers *)

Section Identifiers.

Variable p : Props.

Lemma builds_id (w : World) (submission : ChallengeSubmission.t) :
  builds p w submission ->
  ChallengeSubmission.id submission = toString (clock w (reads w)).
Proof.
  unfold builds. unfold_handler.
  destruct (negb (truthy (trim (text (screen w)))) &&
            negb (truthyOrNull (selectedImage (screen w)))); cbn.
  - discriminate.
  - now intros [= <-].
Qed.

Lemma issued_app (a b : list Effect) :
  issued (a ++ b) = (issued a ++ issued b)%list.
Proof.
  induction a as [|e a IH]; [reflexivity|].
  destruct e; cbn; now rewrite IH.
Qed.

(** A turn of the event loop leaves the clock alone, and either reads it
    twice and issues the first reading, or neither reads nor issues. *)
Lemma step_issued (ev : Event) (i : Instance) :
  clock (world (step p ev i)) = clock (world i) /\
  ((reads (world (step p ev i)) = reads (world i) /\
    issued (trace (world (step p ev i))) = issued (trace (world i))) \/
   (reads (world (step p ev i)) = S (S (reads (world i))) /\
    issued (trace (world (step p ev i))) =
      (issued (trace (world i)) ++ [clock (world i) (reads (world i))])%list)).
Proof.
  assert (same : clock (world i) = clock (world i) /\
                 ((reads (world i) = reads (world i) /\
                   issued (trace (world i)) = issued (trace (world i))) \/
                  (reads (world i) = S (S (reads (world i))) /\
                   issued (trace (world i)) =
                     (issued (trace (world i)) ++ [clock (world i) (reads (world i))])%list)))
    by (split; [reflexivity | now left]).
  destruct ev; cbn [step];
    try (destruct (dismissed (world i)); [exact same|]).
  - split; [reflexivity | now left].
  - destruct r; cbn; (split; [reflexivity | left; split; [reflexivity|]]);
      rewrite ?issued_app, ?app_nil_r; reflexivity.
  - destruct r; cbn; (split; [reflexivity | left; split; [reflexivity|]]);
      rewrite ?issued_app, ?app_nil_r; reflexivity.
  - destruct (truthyOrNull (selectedImage (screen (world i)))); [|exact same].
    split; [reflexivity | now left].
  - destruct (isSubmitting (screen (world i))); [exact same|].
    unfold_handler.
    destruct (negb (truthy (trim (text (screen (world i))))) &&
              negb (truthyOrNull (selectedImage (screen (world i))))); cbn.
    + split; [reflexivity | left; split; [reflexivity|]].
      now rewrite issued_app, app_nil_r.
    + split; [reflexivity | right; split; [reflexivity|]].
      now rewrite !issued_app, !app_nil_r.
  - unfold run. unfold_handler. cbn.
    destruct (onClose p); cbn; (split; [reflexivity | left; split; [reflexivity|]]);
      now rewrite issued_app, app_nil_r.
  - destruct (inFlight i) as [|s rest]; [exact same|].
    unfold_handler. cbn.
    destruct (onSubmit p s); cbn; [destruct (onClose p); cbn|];
      (split; [reflexivity | left; split; [reflexivity|]]);
      rewrite !issued_app; cbn; now rewrite !app_nil_r.
Qed.

Lemma reachable_issued (i : Instance) :
  reachable p i ->
  issuedFromPast i /\
  (increasing (clock (world i)) -> NoDup (issued (trace (world i)))).
Proof.
  unfold issuedFromPast.
  induction 1 as [clk | ev i _ [IHpast IHnodup]].
  - split; [constructor | intros _; constructor].
  - destruct (step_issued ev i) as [Hc [[Hr Hi] | [Hr Hi]]]; rewrite Hc, Hr, Hi.
    + now split.
    + split.
      * apply Forall_app. split.
        -- eapply Forall_impl; [|exact IHpast].
           intros t (k & Hk & ->). exists k. split; [lia | reflexivity].
        -- constructor; [|constructor]. exists (reads (world i)). split; [lia | reflexivity].
      * intros Hinc. apply NoDup_app.
        -- now apply IHnodup.
        -- constructor; [intros [] | constructor].
        -- intros t Hin [<- | []].
           rewrite Forall_forall in IHpast.
           destruct (IHpast _ Hin) as (k & Hk & Ht).
           specialize (Hinc k (reads (world i)) Hk). lia.
Qed.

End Identifiers.

(** C9, as the code has it.  The identifier of a submission is the decimal
    rendering of the value [Date.now()] returned when it was built: two
    submissions have different identifiers exactly when those values differ,
    and on a clock whose readings increase the identifiers issued by a
    screen instance are pairwise different. *)
Theorem identifiers_follow_the_clock :
  (forall p1 p2 w1 w2 s1 s2,
      builds p1 w1 s1 -> builds p2 w2 s2 ->
      (ChallengeSubmission.id s1 <> ChallengeSubmission.id s2 <->
       clock w1 (reads w1) <> clock w2 (reads w2))) /\
  (forall p i,
      reachable p i -> increasing (clock (world i)) ->
      NoDup (map toString (issued (trace (world i))))).
Proof.
  split.
  - intros p1 p2 w1 w2 s1 s2 H1 H2.
    rewrite (builds_id p1 w1 s1 H1), (builds_id p2 w2 s2 H2). split.
    + intros H E. apply H. now rewrite E.
    + intros H E. apply H. now apply toString_inj.
  - intros p i R Hinc.
    apply Injective_map_NoDup.
    + intros a b. apply toString_inj.
    + now apply (reachable_issued p i R).
Qed.

(** * Further properties *)

(** ** Strings *)

Section AsciiFacts.

Context {ecma : Ecma engine}.

Lemma lowerChar_idem (c : ascii) :
  AsciiText.lowerChar (AsciiText.lowerChar c) = AsciiText.lowerChar c.
Proof. destruct c as [[] [] [] [] [] [] [] []]; reflexivity. Qed.

Lemma lowerChar_ascii (c : ascii) :
  AsciiText.isAsciiChar c = true -> AsciiText.isAsciiChar (AsciiText.lowerChar c) = true.
Proof. destruct c as [[] [] [] [] [] [] [] []]; intros H; try reflexivity; discriminate. Qed.

Lemma toggleCase_ascii (c : ascii) :
  AsciiText.isAsciiChar c = true -> AsciiText.isAsciiChar (AsciiText.toggleCase c) = true.
Proof. destruct c as [[] [] [] [] [] [] [] []]; intros H; try reflexivity; discriminate. Qed.

Lemma lowerChar_toggleCase (c : ascii) :
  AsciiText.lowerChar (AsciiText.toggleCase c) = AsciiText.lowerChar c.
Proof. destruct c as [[] [] [] [] [] [] [] []]; reflexivity. Qed.

Lemma asciiLower_idem (s : string) :
  AsciiText.toLowerCase (AsciiText.toLowerCase s) = AsciiText.toLowerCase s.
Proof.
  induction s as [|c s IH]; simpl; [reflexivity|].
  now rewrite lowerChar_idem, IH.
Qed.

Lemma asciiLower_app (a b : string) :
  AsciiText.toLowerCase (a ++ b) = AsciiText.toLowerCase a ++ AsciiText.toLowerCase b.
Proof.
  induction a as [|c a IH]; simpl; [reflexivity | now rewrite IH].
Qed.

Lemma asciiLower_isAscii (s : string) :
  AsciiText.isAscii s = true -> AsciiText.isAscii (AsciiText.toLowerCase s) = true.
Proof.
  induction s as [|c s IH]; simpl; [reflexivity|].
  rewrite !andb_true_iff. intros [Hc Hs]. split; [now apply lowerChar_ascii | now apply IH].
Qed.

Lemma asciiLower_recase (flags : list bool) (s : string) :
  AsciiText.toLowerCase (AsciiText.recase flags s) = AsciiText.toLowerCase s.
Proof.
  revert s; induction flags as [|flag flags IH]; intros s; [now destruct s|].
  destruct s as [|c s]; [reflexivity|]. cbn. rewrite IH.
  destruct flag; [now rewrite lowerChar_toggleCase | reflexivity].
Qed.

Lemma recase_isAscii (flags : list bool) (s : string) :
  AsciiText.isAscii s = true -> AsciiText.isAscii (AsciiText.recase flags s) = true.
Proof.
  revert s; induction flags as [|flag flags IH]; intros s; [now destruct s|].
  destruct s as [|c s]; [reflexivity|]. cbn.
  rewrite !andb_true_iff. intros [Hc Hs]. split; [|now apply IH].
  destruct flag; [now apply toggleCase_ascii | exact Hc].
Qed.

Lemma isAscii_app (a b : string) :
  AsciiText.isAscii (a ++ b) = AsciiText.isAscii a && AsciiText.isAscii b.
Proof.
  induction a as [|c a IH]; simpl; [reflexivity|].
  now rewrite IH, andb_assoc.
Qed.

Lemma string_app_assoc (a b c : string) : (a ++ b) ++ c = a ++ b ++ c.
Proof. induction a as [|x a IH]; simpl; [reflexivity | now rewrite IH]. Qed.

Lemma trimStart_allSpace (s : string) :
  AsciiText.allSpace (AsciiText.trimStart s) = AsciiText.allSpace s.
Proof.
  induction s as [|c s IH]; simpl; [reflexivity|].
  destruct (AsciiText.isSpace c) eqn:Hc; simpl; [exact IH | now rewrite Hc].
Qed.

Lemma trimEnd_empty (s : string) :
  AsciiText.trimEnd s = EmptyString <-> AsciiText.allSpace s = true.
Proof.
  induction s as [|c s IH]; simpl; [tauto|].
  destruct (AsciiText.trimEnd s) eqn:Ht.
  - destruct (AsciiText.isSpace c); simpl.
    + split; [intros _; now apply IH | reflexivity].
    + split; discriminate.
  - split; [discriminate|]. rewrite andb_true_iff. intros [_ H].
    apply IH in H. discriminate.
Qed.

Lemma asciiTrim_empty (s : string) :
  AsciiText.trim s = EmptyString <-> AsciiText.allSpace s = true.
Proof. unfold AsciiText.trim. now rewrite trimEnd_empty, trimStart_allSpace. Qed.

Lemma trimStart_no_lead (s : string) :
  AsciiText.startsWithSpace (AsciiText.trimStart s) = false.
Proof.
  induction s as [|c s IH]; simpl; [reflexivity|].
  destruct (AsciiText.isSpace c) eqn:Hc; [exact IH | exact Hc].
Qed.

Lemma trimStart_fixed (s : string) :
  AsciiText.startsWithSpace s = false -> AsciiText.trimStart s = s.
Proof. destruct s as [|c s]; simpl; [reflexivity | now intros ->]. Qed.

Lemma trimEnd_no_lead (s : string) :
  AsciiText.startsWithSpace s = false ->
  AsciiText.startsWithSpace (AsciiText.trimEnd s) = false.
Proof.
  destruct s as [|c s]; simpl; [reflexivity|]. intros Hc.
  destruct (AsciiText.trimEnd s); [now rewrite Hc | exact Hc].
Qed.

Lemma trimEnd_idem (s : string) :
  AsciiText.trimEnd (AsciiText.trimEnd s) = AsciiText.trimEnd s.
Proof.
  induction s as [|c s IH]; simpl; [reflexivity|].
  destruct (AsciiText.trimEnd s) as [|d t] eqn:Ht.
  - destruct (AsciiText.isSpace c) eqn:Hc; simpl; [reflexivity | now rewrite Hc].
  - change (AsciiText.trimEnd (String c (String d t))) with
      (match AsciiText.trimEnd (String d t) with
       | EmptyString => if AsciiText.isSpace c then EmptyString else String c EmptyString
       | u => String c u
       end).
    now rewrite IH.
Qed.

Lemma asciiTrim_idem (s : string) :
  AsciiText.trim (AsciiText.trim s) = AsciiText.trim s.
Proof.
  unfold AsciiText.trim.
  rewrite (trimStart_fixed (AsciiText.trimEnd (AsciiText.trimStart s))).
  - apply trimEnd_idem.
  - apply trimEnd_no_lead, trimStart_no_lead.
Qed.

Lemma occursIn_embedded (kw t pre post : string) :
  AsciiText.isAscii pre = true -> AsciiText.isAscii t = true ->
  AsciiText.isAscii post = true ->
  occursIn kw t -> occursIn kw (pre ++ t ++ post).
Proof.
  intros Hpre Ht Hpost (a & b & H). unfold occursIn.
  rewrite (toLowerCase_ascii t Ht) in H.
  rewrite toLowerCase_ascii by (now rewrite !isAscii_app, Hpre, Ht, Hpost).
  rewrite !asciiLower_app, H.
  exists (AsciiText.toLowerCase pre ++ a), (b ++ AsciiText.toLowerCase post).
  now rewrite !string_app_assoc.
Qed.

End AsciiFacts.

(** ** Theme resolver *)

Lemma appearsIn_dec (g : ThemeGroup) (title : string) :
  appearsIn g title \/ ~ appearsIn g title.
Proof.
  destruct (groupMatches g title) eqn:E.
  - left. now apply groupMatches_appearsIn.
  - right. now apply groupMatches_not_appearsIn.
Qed.

Lemma some_or_none_appears (title : string) :
  (exists g, appearsIn g title) \/ (forall g, ~ appearsIn g title).
Proof.
  destruct (appearsIn_dec Peace title); [left; now exists Peace|].
  destruct (appearsIn_dec Adventure title); [left; now exists Adventure|].
  destruct (appearsIn_dec Gratitude title); [left; now exists Gratitude|].
  destruct (appearsIn_dec Creative title); [left; now exists Creative|].
  destruct (appearsIn_dec Fitness title); [left; now exists Fitness|].
  right. intros g. now destruct g.
Qed.

Lemma theme_firstGroupIn (title : string) (g : ThemeGroup) :
  getChallengeTheme title = themeOf g -> firstGroupIn g title.
Proof.
  intros H. destruct (some_or_none_appears title) as [[g0 H0] | Hnone].
  - destruct (firstGroupIn_exists title g0 H0) as [g' Hg'].
    rewrite (firstGroupIn_theme title g' Hg') in H.
    now rewrite <- (themeOf_inj _ _ H).
  - rewrite (getChallengeTheme_none title Hnone) in H.
    symmetry in H. now apply themeOf_not_generic in H.
Qed.

(** X1.  The resolver returns the theme of a group exactly when that group
    is the first, in priority order, with a keyword in the title, and the
    generic theme exactly when no keyword of any group occurs in it. *)
Theorem theme_characterisation (title : string) :
  (forall g, getChallengeTheme title = themeOf g <-> firstGroupIn g title) /\
  (getChallengeTheme title = genericTheme <-> forall g, ~ appearsIn g title).
Proof.
  split.
  - intros g. split; [apply theme_firstGroupIn | apply firstGroupIn_theme].
  - split; [|apply getChallengeTheme_none].
    intros H g Hg. destruct (firstGroupIn_exists title g Hg) as [g' Hg'].
    rewrite (firstGroupIn_theme title g' Hg') in H.
    now apply themeOf_not_generic in H.
Qed.

(** X2.  For a title of ASCII characters the case of the letters does not
    matter: changing capitals to small letters and small letters to
    capitals, at any positions, gives a title that resolves to the same
    theme, and so does lower-casing the whole title. *)
Theorem theme_ignores_case {ecma : Ecma engine} :
  (forall flags t,
      AsciiText.isAscii t = true ->
      getChallengeTheme (AsciiText.recase flags t) = getChallengeTheme t) /\
  (forall t,
      AsciiText.isAscii t = true ->
      getChallengeTheme (toLowerCase t) = getChallengeTheme t).
Proof.
  split.
  - intros flags t Ht. unfold getChallengeTheme.
    rewrite (toLowerCase_ascii t Ht).
    rewrite (toLowerCase_ascii _ (recase_isAscii flags t Ht)).
    now rewrite asciiLower_recase.
  - intros t Ht. unfold getChallengeTheme.
    rewrite (toLowerCase_ascii t Ht).
    rewrite (toLowerCase_ascii _ (asciiLower_isAscii t Ht)).
    now rewrite asciiLower_idem.
Qed.

(** X3.  For ASCII text, words added before or after a title never move it
    down the priority order, nor to the generic theme: the longer title
    resolves to the theme of the same group or of one that comes earlier. *)
Theorem longer_title_keeps_priority {ecma : Ecma engine}
    (t pre post : string) (g : ThemeGroup) :
  AsciiText.isAscii pre = true ->
  AsciiText.isAscii t = true ->
  AsciiText.isAscii post = true ->
  getChallengeTheme t = themeOf g ->
  exists g',
    priority g' <= priority g /\
    getChallengeTheme (pre ++ t ++ post) = themeOf g'.
Proof.
  intros Hpre Ht Hpost H.
  apply theme_firstGroupIn in H. destruct H as [(kw & Hin & Hocc) _].
  assert (Hg : appearsIn g (pre ++ t ++ post)).
  { exists kw. split; [exact Hin | now apply occursIn_embedded]. }
  destruct (firstGroupIn_exists _ g Hg) as [g' Hg'].
  exists g'. split.
  - now apply (proj2 Hg').
  - now apply firstGroupIn_theme.
Qed.

(** ** Submission builder *)

Section MoreSubmissionBuilder.

Context {ecma : Ecma engine}.

Variable p : Props.

Lemma handleSubmit_built (w : World) :
  ~ emptyDraft (screen w) ->
  exists submission w',
    handleSubmit p w = (Normal (Some submission), w') /\
    trace w' =
      (trace w ++ [Date_now (clock w (reads w)); new_Date (clock w (S (reads w)));
                   setTimeout 1000])%list /\
    reads w' = S (S (reads w)) /\
    clock w' = clock w.
Proof.
  intros H. rewrite <- emptyDraft_test in H. apply not_true_is_false in H.
  unfold_handler. rewrite H. cbn. eexists; eexists. split; [reflexivity|].
  cbn. rewrite <- !app_assoc. now repeat split.
Qed.

Lemma rejects_iff_emptyDraft (w : World) :
  rejectsAsEmpty p w <-> emptyDraft (screen w).
Proof.
  split.
  - intros [H _]. destruct (emptyDraft_dec (screen w)) as [E|E]; [exact E|].
    destruct (handleSubmit_nonempty p w E) as (s & w' & Hs & _).
    rewrite Hs in H. discriminate.
  - intros E. unfold rejectsAsEmpty. now rewrite (handleSubmit_empty p w E).
Qed.

Lemma builds_wellFormed (w : World) (s : ChallengeSubmission.t) :
  builds p w s -> wellFormed p s.
Proof.
  unfold builds. unfold_handler.
  destruct (negb (truthy (trim (text (screen w)))) &&
            negb (truthyOrNull (selectedImage (screen w)))) eqn:E;
    cbn -[trim]; [discriminate|].
  intros [= <-]. unfold wellFormed. cbn -[trim].
  split; [apply trim_idem|]. split; [|split; [|now repeat split]].
  - apply andb_false_iff in E. rewrite !negb_false_iff in E.
    destruct E as [E|E].
    + left. intros Ht. rewrite Ht in E. discriminate.
    + right. unfold orUndefined. rewrite E.
      destruct (selectedImage (screen w)) as [u|]; [now exists u | discriminate].
  - unfold orUndefined.
    destruct (selectedImage (screen w)) as [[|c u]|]; cbn; discriminate.
Qed.

End MoreSubmissionBuilder.

(** X4.  For a text of ASCII characters, Share turns the draft down exactly
    when every character of the text is white space (TAB, LF, VT, FF, CR or
    SPACE) and the selected image is [null] or the empty string; a single
    other character in the text, or an image, gets it built. *)
Theorem whitespace_only_draft_rejected {ecma : Ecma engine} (p : Props) (w : World) :
  AsciiText.isAscii (text (screen w)) = true ->
  (rejectsAsEmpty p w <->
   AsciiText.allSpace (text (screen w)) = true /\
   truthyOrNull (selectedImage (screen w)) = false) /\
  ((exists submission, builds p w submission) <->
   AsciiText.allSpace (text (screen w)) = false \/
   truthyOrNull (selectedImage (screen w)) = true).
Proof.
  intros Hascii.
  assert (D : emptyDraft (screen w) <->
              AsciiText.allSpace (text (screen w)) = true /\
              truthyOrNull (selectedImage (screen w)) = false).
  { unfold emptyDraft, imagePresent.
    rewrite (trim_ascii _ Hascii), asciiTrim_empty.
    destruct (truthyOrNull (selectedImage (screen w))); intuition congruence. }
  split.
  - now rewrite rejects_iff_emptyDraft.
  - split.
    + intros [s Hs]. apply builds_nonempty in Hs. rewrite D in Hs.
      destruct (AsciiText.allSpace (text (screen w))); [|now left].
      destruct (truthyOrNull (selectedImage (screen w))); [now right|].
      exfalso. now apply Hs.
    + intros H.
      assert (N : ~ emptyDraft (screen w)).
      { rewrite D. intros [H1 H2]. destruct H; congruence. }
      destruct (handleSubmit_nonempty p w N) as (s & w' & Hs & _).
      exists s. unfold builds. now rewrite Hs.
Qed.

(** X5.  A built record is well formed: trimming its text again changes
    nothing, it has text or an image, its image is never the empty string,
    its counters are zero, and challenge, mode and author are those of the
    props and the constants. *)
Theorem built_record_well_formed {ecma : Ecma engine}
    (p : Props) (w : World) (s : ChallengeSubmission.t) :
  builds p w s -> wellFormed p s.
Proof.
  intros H. exact (builds_wellFormed p w s H).
Qed.

(** ** What a screen instance builds and hands over *)

Section Accounting.

Context {ecma : Ecma engine}.

Variable p : Props.

Lemma submitted_app (a b : list Effect) :
  submitted (a ++ b) = (submitted a ++ submitted b)%list.
Proof.
  induction a as [|e a IH]; [reflexivity|].
  destruct e; cbn; now rewrite IH.
Qed.

(** A turn of the event loop builds nothing, or builds one submission from
    the draft of that moment and issues one identifier for it. *)
Lemma step_builtSoFar (ev : Event) (i : Instance) :
  (builtSoFar (step p ev i) = builtSoFar i /\
   issued (trace (world (step p ev i))) = issued (trace (world i))) \/
  (exists s,
      builds p (world i) s /\
      builtSoFar (step p ev i) = (builtSoFar i ++ [s])%list /\
      issued (trace (world (step p ev i))) =
        (issued (trace (world i)) ++ [clock (world i) (reads (world i))])%list).
Proof.
  unfold builtSoFar.
  destruct ev; cbn [step];
    try (destruct (dismissed (world i)); [now left|]).
  - now left.
  - left. destruct r; cbn; rewrite ?submitted_app, ?issued_app, ?app_nil_r; now split.
  - left. destruct r; cbn; rewrite ?submitted_app, ?issued_app, ?app_nil_r; now split.
  - destruct (truthyOrNull (selectedImage (screen (world i)))); now left.
  - destruct (isSubmitting (screen (world i))); [now left|].
    destruct (emptyDraft_dec (screen (world i))) as [D|D].
    + left. rewrite (handleSubmit_empty p _ D). cbn.
      rewrite submitted_app, issued_app, !app_nil_r. now split.
    + right. destruct (handleSubmit_built p _ D) as (s & w' & Hw & Htr & _).
      exists s. unfold builds. rewrite Hw. cbn. rewrite Htr.
      rewrite submitted_app, issued_app. cbn.
      rewrite app_nil_r, app_assoc. now repeat split.
  - left. unfold run. unfold_handler. cbn.
    destruct (onClose p); cbn; rewrite submitted_app, issued_app, !app_nil_r; now split.
  - destruct (inFlight i) as [|s rest] eqn:E; [left; now rewrite E|]. left.
    unfold_handler. cbn.
    destruct (onSubmit p s); cbn; [destruct (onClose p); cbn|];
      rewrite !submitted_app, !issued_app; cbn;
      rewrite ?app_nil_r, <- ?app_assoc; now split.
Qed.

Lemma reachable_builtSoFar (i : Instance) :
  reachable p i ->
  map ChallengeSubmission.id (builtSoFar i) =
    map toString (issued (trace (world i))).
Proof.
  induction 1 as [clk | ev i _ IHid].
  - reflexivity.
  - destruct (step_builtSoFar ev i) as [[Hb Hi] | (s & Hs & Hb & Hi)];
      rewrite Hb, Hi.
    + exact IHid.
    + rewrite !map_app, IHid. cbn. now rewrite (builds_id p _ _ Hs).
Qed.

Lemma reachable_wellFormed (i : Instance) :
  reachable p i -> Forall (wellFormed p) (builtSoFar i).
Proof.
  induction 1 as [clk | ev i _ IHwf].
  - constructor.
  - destruct (step_builtSoFar ev i) as [[Hb Hi] | (s & Hs & Hb & Hi)];
      rewrite Hb.
    + exact IHwf.
    + apply Forall_app. split; [exact IHwf|].
      constructor; [|constructor]. now apply (builds_wellFormed p (world i)).
Qed.

End Accounting.

(** X6.  Every submission a screen instance has handed to [onSubmit], and
    the one it may still hold in flight, is well formed: trimmed text, text
    or image, zero counters, the challenge and mode of the props. *)
Theorem handed_over_records_well_formed {ecma : Ecma engine}
    (p : Props) (i : Instance) :
  reachable p i ->
  Forall (wellFormed p) (submitted (trace (world i))) /\
  Forall (wellFormed p) (inFlight i).
Proof.
  intros R. apply (reachable_wellFormed p) in R.
  unfold builtSoFar in R. now apply Forall_app in R.
Qed.

(** X7.  Nothing built is lost or handed over twice: the identifiers of the
    submissions handed to the host, followed by those in flight, are the
    renderings of the values [Date.now()] returned, one for one and in
    order; the host has never received more submissions than were built. *)
Theorem every_build_accounted_for (p : Props) (i : Instance) :
  reachable p i ->
  map ChallengeSubmission.id (submitted (trace (world i)) ++ inFlight i) =
    map toString (issued (trace (world i))) /\
  length (submitted (trace (world i))) + length (inFlight i) =
    length (issued (trace (world i))).
Proof.
  intros R. apply (reachable_builtSoFar p) in R.
  unfold builtSoFar in R. split; [exact R|].
  apply (f_equal (@length string)) in R.
  now rewrite !length_map, length_app in R.
Qed.

(** X8.  On a clock whose readings increase, the submissions a screen
    instance hands to the host, and the one in flight, carry pairwise
    different identifiers. *)
Theorem handed_over_identifiers_differ (p : Props) (i : Instance) :
  reachable p i ->
  increasing (clock (world i)) ->
  NoDup (map ChallengeSubmission.id (submitted (trace (world i)) ++ inFlight i)).
Proof.
  intros R Hinc.
  pose proof (reachable_builtSoFar p i R) as E. unfold builtSoFar in E.
  rewrite E. apply Injective_map_NoDup.
  - intros a b. apply toString_inj.
  - now apply (reachable_issued p i R).
Qed.

(** ** The handler after the timer *)

Section Resume.

Variable p : Props.

Lemma resume_success (w : World) (s : ChallengeSubmission.t) :
  onSubmit p s = Normal tt ->
  onClose p = Normal tt ->
  handleSubmit_resume p s w =
  (Normal tt,
   {| screen := {| text := text (screen w);
                   selectedImage := selectedImage (screen w);
                   isSubmitting := false |};
      dismissed := true; clock := clock w; reads := reads w;
      trace := (trace w ++ [onSubmit_called s; successAlert; onClose_called])%list |}).
Proof.
  intros H1 H2. unfold_handler. cbn. rewrite H1. cbn. rewrite H2. cbn.
  now rewrite <- !app_assoc.
Qed.

Lemma resume_close_failure (w : World) (s : ChallengeSubmission.t) (e : Exn) :
  onSubmit p s = Normal tt ->
  onClose p = Throw e ->
  handleSubmit_resume p s w =
  (Normal tt,
   {| screen := {| text := text (screen w);
                   selectedImage := selectedImage (screen w);
                   isSubmitting := false |};
      dismissed := dismissed w; clock := clock w; reads := reads w;
      trace := (trace w ++ [onSubmit_called s; successAlert; onClose_called;
                            errorAlert])%list |}).
Proof.
  intros H1 H2. unfold_handler. cbn. rewrite H1. cbn. rewrite H2. cbn.
  now rewrite <- !app_assoc.
Qed.

Lemma host_cases (s : ChallengeSubmission.t) :
  (exists e, onSubmit p s = Throw e) \/
  (onSubmit p s = Normal tt /\ onClose p = Normal tt) \/
  (onSubmit p s = Normal tt /\ exists e, onClose p = Throw e).
Proof.
  destruct (onSubmit p s) as [[]|e]; [|left; now exists e].
  right. destruct (onClose p) as [[]|e]; [now left | right; split; trivial; now exists e].
Qed.

(** Whatever the host does, the resumed handler completes normally, hands
    the submission over once, leaves the draft and the clock alone, and
    clears [isSubmitting]. *)
Lemma resume_always (w : World) (s : ChallengeSubmission.t) :
  fst (handleSubmit_resume p s w) = Normal tt /\
  isSubmitting (screen (snd (handleSubmit_resume p s w))) = false /\
  text (screen (snd (handleSubmit_resume p s w))) = text (screen w) /\
  selectedImage (screen (snd (handleSubmit_resume p s w))) = selectedImage (screen w) /\
  reads (snd (handleSubmit_resume p s w)) = reads w /\
  clock (snd (handleSubmit_resume p s w)) = clock w /\
  submitted (trace (snd (handleSubmit_resume p s w))) =
    (submitted (trace w) ++ [s])%list /\
  (dismissed w = true -> dismissed (snd (handleSubmit_resume p s w)) = true).
Proof.
  destruct (host_cases s) as [[e H] | [[H1 H2] | [H1 [e H2]]]].
  - rewrite (resume_failure p w s e H). cbn.
    rewrite !submitted_app. cbn. rewrite app_nil_r. now repeat split.
  - rewrite (resume_success w s H1 H2). cbn.
    rewrite !submitted_app. cbn. now repeat split.
  - rewrite (resume_close_failure w s e H1 H2). cbn.
    rewrite !submitted_app. cbn. now repeat split.
Qed.

Lemma step_exactFlight (ev : Event) (i : Instance) :
  exactFlight i -> exactFlight (step p ev i).
Proof.
  intros Inv.
  assert (keep : forall m : M unit,
             isSubmitting (screen (snd (m (world i)))) = isSubmitting (screen (world i)) ->
             exactFlight (run m i)).
  { intros m Hm. unfold exactFlight. cbn. now rewrite Hm. }
  destruct ev; cbn [step];
    try (destruct (dismissed (world i)); [exact Inv|]).
  - apply keep. reflexivity.
  - apply keep. now destruct r.
  - apply keep. now destruct r.
  - destruct (truthyOrNull (selectedImage (screen (world i)))); [|exact Inv].
    apply keep. reflexivity.
  - destruct (isSubmitting (screen (world i))) eqn:Hs; [exact Inv|].
    destruct Inv as [[_ E] | [Hs' _]]; [|congruence].
    destruct (emptyDraft_dec (screen (world i))) as [D|D].
    + rewrite (handleSubmit_empty p _ D). left. cbn. now split.
    + destruct (handleSubmit_nonempty p _ D) as (s & w' & Hw & _ & _ & Hscr & _).
      rewrite Hw, E. right. cbn. rewrite Hscr. split; [reflexivity | now exists s].
  - apply keep. unfold_handler. cbn. now destruct (onClose p).
  - destruct (inFlight i) as [|s rest] eqn:E; [exact Inv|].
    destruct Inv as [[_ E'] | [_ [s' E']]]; [congruence|].
    left. cbn. split; [apply resume_always | congruence].
Qed.

Lemma reachable_exactFlight (i : Instance) :
  reachable p i -> exactFlight i.
Proof.
  induction 1 as [clk | ev i _ IH].
  - left. now split.
  - now apply step_exactFlight.
Qed.

End Resume.

(** X9.  When the timer fires on a submitting screen and both [onSubmit]
    and [onClose] return, the submission is handed over, the success alert
    follows, [onClose] is called last, and the screen is closed. *)
Theorem acceptance_success_closes
    (p : Props) (i : Instance) (s : ChallengeSubmission.t)
    (rest : list ChallengeSubmission.t) :
  phase (world i) = Submitting ->
  inFlight i = s :: rest ->
  onSubmit p s = Normal tt ->
  onClose p = Normal tt ->
  phase (world (step p TimerFired i)) = Closed /\
  trace (world (step p TimerFired i)) =
    (trace (world i) ++ [onSubmit_called s; successAlert; onClose_called])%list /\
  text (screen (world (step p TimerFired i))) = text (screen (world i)) /\
  selectedImage (screen (world (step p TimerFired i))) = selectedImage (screen (world i)) /\
  inFlight (step p TimerFired i) = rest.
Proof.
  intros _ Hfl H1 H2. cbn [step]. rewrite Hfl, (resume_success p _ s H1 H2).
  now repeat split.
Qed.

(** X10.  The [catch] also covers [onClose]: when [onSubmit] returns and
    [onClose] then throws, the host has the submission, the user sees the
    success alert and then the error alert, and the screen is idle again
    with Share enabled, so that a retry hands over a second record. *)
Theorem close_failure_reports_error_after_delivery
    (p : Props) (i : Instance) (s : ChallengeSubmission.t)
    (rest : list ChallengeSubmission.t) (e : Exn) :
  phase (world i) = Submitting ->
  inFlight i = s :: rest ->
  onSubmit p s = Normal tt ->
  onClose p = Throw e ->
  trace (world (step p TimerFired i)) =
    (trace (world i) ++ [onSubmit_called s; successAlert; onClose_called;
                         errorAlert])%list /\
  phase (world (step p TimerFired i)) = Idle /\
  shareDisabled (world (step p TimerFired i)) = false.
Proof.
  intros Hph Hfl H1 H2. unfold phase in Hph.
  destruct (dismissed (world i)) eqn:Hd; [discriminate|].
  cbn [step]. rewrite Hfl, (resume_close_failure p _ s e H1 H2).
  unfold phase, shareDisabled. cbn. rewrite Hd. now repeat split.
Qed.

(** X11.  Neither half of [handleSubmit] ever completes with an exception,
    whatever the host's callbacks do; the second half hands the submission
    to [onSubmit] exactly once, clears [isSubmitting], and leaves the text,
    the selected image and the clock as they were. *)
Theorem handler_never_rejects (p : Props) (w : World) (s : ChallengeSubmission.t) :
  (exists r, fst (handleSubmit p w) = Normal r) /\
  fst (handleSubmit_resume p s w) = Normal tt /\
  isSubmitting (screen (snd (handleSubmit_resume p s w))) = false /\
  text (screen (snd (handleSubmit_resume p s w))) = text (screen w) /\
  selectedImage (screen (snd (handleSubmit_resume p s w))) = selectedImage (screen w) /\
  reads (snd (handleSubmit_resume p s w)) = reads w /\
  submitted (trace (snd (handleSubmit_resume p s w))) =
    (submitted (trace w) ++ [s])%list.
Proof.
  split.
  - destruct (emptyDraft_dec (screen w)) as [D|D].
    + rewrite (handleSubmit_empty p w D). now exists None.
    + destruct (handleSubmit_nonempty p w D) as (s' & w' & Hw & _).
      rewrite Hw. now exists (Some s').
  - pose proof (resume_always p w s) as H. tauto.
Qed.

(** X12.  In every state a screen instance can reach, the Share control is
    disabled exactly while a submission is in flight, and the firing of the
    pending timer enables it again: the control cannot stay disabled. *)
Theorem share_disabled_iff_in_flight (p : Props) (i : Instance) :
  reachable p i ->
  (shareDisabled (world i) = true <-> inFlight i <> []) /\
  (shareDisabled (world i) = true ->
   shareDisabled (world (step p TimerFired i)) = false /\
   inFlight (step p TimerFired i) = []).
Proof.
  intros R. apply (reachable_exactFlight p) in R. unfold shareDisabled.
  destruct R as [[Hs E] | [Hs [s E]]]; rewrite Hs.
  - split; [split; [discriminate | now rewrite E] | discriminate].
  - split; [split; [now rewrite E | reflexivity]|].
    intros _. cbn [step]. rewrite E. cbn. split; [apply resume_always | reflexivity].
Qed.

(** X13.  Closing the screen does not cancel a submission in flight: the
    close control is not disabled and the timer is not cleared, so after
    Close and the firing of the timer the host still receives the
    submission, and when [onSubmit] returns [onClose] is called once more. *)
Theorem close_does_not_cancel
    (p : Props) (i : Instance) (s : ChallengeSubmission.t)
    (rest : list ChallengeSubmission.t) :
  phase (world i) = Submitting ->
  inFlight i = s :: rest ->
  onClose p = Normal tt ->
  phase (world (step p PressClose i)) = Closed /\
  submitted (trace (world (steps p [PressClose; TimerFired] i))) =
    (submitted (trace (world i)) ++ [s])%list /\
  (onSubmit p s = Normal tt ->
   closes (trace (world (steps p [PressClose; TimerFired] i))) =
     S (S (closes (trace (world i))))).
Proof.
  intros Hph Hfl Hc. unfold phase in Hph.
  destruct (dismissed (world i)) eqn:Hd; [discriminate|].
  assert (Hstep : step p PressClose i =
                  {| world := {| screen := screen (world i); dismissed := true;
                                 clock := clock (world i); reads := reads (world i);
                                 trace := (trace (world i) ++ [onClose_called])%list |};
                     inFlight := inFlight i |}).
  { cbn [step]. rewrite Hd. unfold run. unfold_handler. cbn. now rewrite Hc. }
  cbn [steps]. rewrite Hstep. split; [reflexivity|]. split.
  - cbn [step inFlight]. rewrite Hfl. cbn [world].
    destruct (resume_always p
      {| screen := screen (world i); dismissed := true; clock := clock (world i);
         reads := reads (world i); trace := (trace (world i) ++ [onClose_called])%list |} s)
      as (_ & _ & _ & _ & _ & _ & H & _).
    rewrite H. cbn. rewrite submitted_app. cbn. now rewrite app_nil_r.
  - intros Hs. cbn [step inFlight]. rewrite Hfl. cbn [world].
    rewrite (resume_success p _ s Hs Hc). cbn.
    assert (closes_app : forall a b, closes (a ++ b) = closes a + closes b).
    { induction a as [|x a IH]; intros b; [reflexivity|].
      destruct x; cbn; now rewrite IH. }
    rewrite !closes_app. cbn. lia.
Qed.

(** X14.  The draft is not locked while a submission is in flight: a text
    change goes into the draft at once, but the record handed to the host
    when the timer fires is the one built at the press. *)
Theorem draft_editable_while_submitting
    (p : Props) (i : Instance) (s : ChallengeSubmission.t)
    (rest : list ChallengeSubmission.t) (t' : string) :
  phase (world i) = Submitting ->
  inFlight i = s :: rest ->
  text (screen (world (step p (ChangeText t') i))) = t' /\
  phase (world (step p (ChangeText t') i)) = Submitting /\
  inFlight (step p (ChangeText t') i) = s :: rest /\
  submitted (trace (world (steps p [ChangeText t'; TimerFired] i))) =
    (submitted (trace (world i)) ++ [s])%list /\
  text (screen (world (steps p [ChangeText t'; TimerFired] i))) = t'.
Proof.
  intros Hph Hfl. unfold phase in Hph.
  destruct (dismissed (world i)) eqn:Hd; [discriminate|].
  destruct (isSubmitting (screen (world i))) eqn:Hs; [|discriminate].
  assert (Hstep : step p (ChangeText t') i =
                  {| world := {| screen := {| text := t';
                                              selectedImage := selectedImage (screen (world i));
                                              isSubmitting := isSubmitting (screen (world i)) |};
                                 dismissed := dismissed (world i);
                                 clock := clock (world i); reads := reads (world i);
                                 trace := trace (world i) |};
                     inFlight := inFlight i |}).
  { cbn [step]. rewrite Hd. unfold run. unfold_handler. cbn. now rewrite Hd. }
  cbn [steps]. rewrite Hstep. split; [reflexivity|]. split; [|split; [exact Hfl|]].
  - unfold phase. cbn. now rewrite Hd, Hs.
  - cbn [step inFlight]. rewrite Hfl. cbn [world].
    match goal with
    | |- context [handleSubmit_resume p s ?w] =>
        destruct (resume_always p w s) as (_ & _ & Ht & _ & _ & _ & H & _)
    end.
    rewrite H, Ht. now split.
Qed.

(** ** The pickers and the image *)

(** X15.  The two picker handlers touch nothing but the selected image: they
    never throw on an answer they can use, never change the text or
    [isSubmitting], never read the clock or call the host; a refusal shows
    one alert and keeps the image, a cancellation changes nothing at all,
    and a picked asset replaces whatever image was selected. *)
Theorem pickers_touch_only_the_image
    (h : PickerResult -> M unit) (r : PickerResult) (w : World) :
  h = pickImage \/ h = takePhoto ->
  (fst (h r w) = Normal tt /\
   text (screen (snd (h r w))) = text (screen w) /\
   isSubmitting (screen (snd (h r w))) = isSubmitting (screen w) /\
   dismissed (snd (h r w)) = dismissed w /\
   reads (snd (h r w)) = reads w /\
   submitted (trace (snd (h r w))) = submitted (trace w)) /\
  (r = Canceled -> snd (h r w) = w) /\
  (r = PermissionDenied ->
   screen (snd (h r w)) = screen w /\
   exists message,
     trace (snd (h r w)) = (trace w ++ [Alert_alert "Permission needed" message])%list) /\
  (forall u, r = Asset u ->
     selectedImage (screen (snd (h r w))) = Some u /\
     trace (snd (h r w)) = trace w).
Proof.
  intros [-> | ->]; (split; [|split; [|split]]).
  1, 5: destruct r; cbn; rewrite ?submitted_app, ?app_nil_r; now repeat split.
  1, 4: now intros ->.
  1, 3: intros ->; cbn; split; [now destruct (screen w) | eexists; reflexivity].
  1, 2: now intros u ->.
Qed.

(** X16.  What the two awaits of a picker handler resolve to decides what
    it does: a refused permission, a cancellation, or the first asset of
    the result, the others being ignored; a result that is not canceled and
    has no asset makes the handler throw, before it has changed anything. *)
Theorem picker_answers (permissionResult : PermissionResponse) (result : ImagePickerResult) :
  (forall r,
      answer permissionResult result = Some r ->
      pickImage_async permissionResult result = pickImage r /\
      takePhoto_async permissionResult result = takePhoto r) /\
  (answer permissionResult result = None ->
   forall w,
     pickImage_async permissionResult result w = (Throw TypeError, w) /\
     takePhoto_async permissionResult result w = (Throw TypeError, w)) /\
  (answer permissionResult result = None <->
   granted permissionResult = true /\ canceled result = false /\
   (assets result = None \/ assets result = Some [])) /\
  (forall asset more,
      granted permissionResult = true -> canceled result = false ->
      assets result = Some (asset :: more) ->
      answer permissionResult result = Some (Asset (uri asset))).
Proof.
  destruct permissionResult as [[|]], result as [[|] [[|a l]|]];
    unfold answer, pickImage_async, takePhoto_async, useResult; cbn;
    (split; [|split; [|split]]);
    try (intros r [= <-]; now split);
    try discriminate;
    try (intros _ w; now split);
    try (split; [discriminate | intros (? & ? & [? | ?]); discriminate]);
    try (split; [now auto | reflexivity]);
    try (intros asset more; intros; congruence).
Qed.

Lemma builds_image (p : Props) (w : World) (s : ChallengeSubmission.t) :
  builds p w s ->
  ChallengeSubmission.image s = orUndefined (selectedImage (screen w)) /\
  ChallengeSubmission.text s = trim (text (screen w)).
Proof.
  intros H. pose proof (builds_nonempty p w s H) as D.
  destruct (handleSubmit_nonempty p w D) as (s' & w' & Hs & Ht & Hi & _).
  unfold builds in H. rewrite Hs in H. injection H as <-. now split.
Qed.

(** X17.  On a mounted screen the control that removes the image leaves no
    image to send: afterwards the selected image counts as absent, the text
    and the in-flight submission are as before, and a record built from the
    draft carries no image. *)
Theorem removing_the_image (p : Props) (i : Instance) :
  dismissed (world i) = false ->
  truthyOrNull (selectedImage (screen (world (step p PressRemoveImage i)))) = false /\
  text (screen (world (step p PressRemoveImage i))) = text (screen (world i)) /\
  inFlight (step p PressRemoveImage i) = inFlight i /\
  trace (world (step p PressRemoveImage i)) = trace (world i) /\
  (forall s,
      builds p (world (step p PressRemoveImage i)) s ->
      ChallengeSubmission.image s = None).
Proof.
  intros Hd.
  assert (E : truthyOrNull (selectedImage (screen (world (step p PressRemoveImage i)))) = false).
  { cbn [step]. rewrite Hd.
    destruct (truthyOrNull (selectedImage (screen (world i)))) eqn:E; [reflexivity | exact E]. }
  split; [exact E|]. split; [|split; [|split]].
  - cbn [step]. rewrite Hd.
    now destruct (truthyOrNull (selectedImage (screen (world i)))).
  - cbn [step]. rewrite Hd.
    now destruct (truthyOrNull (selectedImage (screen (world i)))).
  - cbn [step]. rewrite Hd.
    now destruct (truthyOrNull (selectedImage (screen (world i)))).
  - intros s Hs. destruct (builds_image p _ s Hs) as [-> _].
    unfold orUndefined. now rewrite E.
Qed.

(** ** What is shown and what is sent *)

(** X18.  What the screen shows is what Share sends: the image of a built
    record is the one in the preview, absent when no preview is shown, and
    its text is the content of the input field, trimmed. *)
Theorem preview_is_what_gets_sent (p : Props) (w : World) (s : ChallengeSubmission.t) :
  builds p w s ->
  ChallengeSubmission.image s = View.preview (render p (screen w)) /\
  ChallengeSubmission.text s = trim (View.inputValue (render p (screen w))).
Proof.
  intros H. destruct (builds_image p w s H) as [Hi Ht]. now split.
Qed.

(** X19.  In every state a screen instance can reach, the Share control
    reads "Sharing..." and is rendered disabled exactly while a submission
    is in flight, and reads "Share" exactly while none is. *)
Theorem sharing_label_iff_in_flight (p : Props) (i : Instance) :
  reachable p i ->
  (View.shareLabel (render p (screen (world i))) = "Sharing..." <-> inFlight i <> []) /\
  (View.shareLabel (render p (screen (world i))) = "Share" <-> inFlight i = []) /\
  (View.shareDisabled (render p (screen (world i))) = true <-> inFlight i <> []).
Proof.
  intros R. apply (reachable_exactFlight p) in R. cbn.
  destruct R as [[-> ->] | [-> [s ->]]].
  - split; [split; [discriminate | now intros []]|].
    split; [now split | split; [discriminate | now intros []]].
  - split; [now split|].
    split; [split; discriminate | now split].
Qed.

(** X20.  A built record depends on the world only through the draft and
    the two readings of the clock: two builds for the same props from the
    same text and selected image agree on every field but the identifier and
    the timestamp, and are equal when the readings are. *)
Theorem rebuild_differs_only_in_time
    (p : Props) (w1 w2 : World) (s1 s2 : ChallengeSubmission.t) :
  builds p w1 s1 -> builds p w2 s2 ->
  text (screen w1) = text (screen w2) ->
  selectedImage (screen w1) = selectedImage (screen w2) ->
  s2 = {| ChallengeSubmission.id := ChallengeSubmission.id s2;
          ChallengeSubmission.challengeId := ChallengeSubmission.challengeId s1;
          ChallengeSubmission.challengeTitle := ChallengeSubmission.challengeTitle s1;
          ChallengeSubmission.challengeIcon := ChallengeSubmission.challengeIcon s1;
          ChallengeSubmission.text := ChallengeSubmission.text s1;
          ChallengeSubmission.image := ChallengeSubmission.image s1;
          ChallengeSubmission.timestamp := ChallengeSubmission.timestamp s2;
          ChallengeSubmission.author := ChallengeSubmission.author s1;
          ChallengeSubmission.likes := ChallengeSubmission.likes s1;
          ChallengeSubmission.comments := ChallengeSubmission.comments s1;
          ChallengeSubmission.shares := ChallengeSubmission.shares s1;
          ChallengeSubmission.participationType :=
            ChallengeSubmission.participationType s1 |} /\
  (clock w1 (reads w1) = clock w2 (reads w2) ->
   clock w1 (S (reads w1)) = clock w2 (S (reads w2)) ->
   s1 = s2).
Proof.
  unfold builds. unfold_handler. intros H1 H2 Ht Hi. rewrite <- Ht, <- Hi in H2.
  destruct (negb (truthy (trim (text (screen w1)))) &&
            negb (truthyOrNull (selectedImage (screen w1)))); cbn -[trim] in H1, H2.
  - discriminate.
  - injection H1 as <-. injection H2 as <-. cbn -[trim]. split; [reflexivity|].
    now intros -> ->.
Qed.

End Screen.

(** * Runs on ASCII text *)

#[global] Existing Instance asciiBuiltins.

(** The ASCII engine does what ECMAScript fixes for ASCII text. *)
#[global] Instance asciiEcma : Ecma asciiBuiltins.
Proof.
  split.
  - reflexivity.
  - reflexivity.
  - exact asciiTrim_idem.
Qed.

Lemma first_matching_group_wins_witness :
  appearsIn Peace "Peaceful Adventure" /\
  appearsIn Adventure "Peaceful Adventure" /\
  firstGroupIn Peace "Peaceful Adventure" /\
  getChallengeTheme "Peaceful Adventure" = peaceTheme.
Proof.
  assert (HP : appearsIn Peace "Peaceful Adventure")
    by (apply groupMatches_appearsIn; reflexivity).
  assert (HA : appearsIn Adventure "Peaceful Adventure")
    by (apply groupMatches_appearsIn; reflexivity).
  assert (HF : firstGroupIn Peace "Peaceful Adventure")
    by (split; [exact HP | intros; apply Nat.le_0_l]).
  split; [exact HP | split; [exact HA | split; [exact HF|]]].
  destruct (proj1 (first_matching_group_wins (engine := asciiBuiltins)) "Peaceful Adventure" Peace Adventure)
    as [_ Hall]; [discriminate | exact HP | exact HA |].
  exact (Hall Peace HF).
Defined.

Lemma single_group_theme_witness :
  appearsIn Peace "MINDFUL Monday" /\
  (forall g', g' <> Peace -> ~ appearsIn g' "MINDFUL Monday") /\
  getChallengeTheme "MINDFUL Monday" = peaceTheme.
Proof.
  assert (HP : appearsIn Peace "MINDFUL Monday")
    by (apply groupMatches_appearsIn; reflexivity).
  assert (HO : forall g', g' <> Peace -> ~ appearsIn g' "MINDFUL Monday").
  { intros g' Hne. apply groupMatches_not_appearsIn.
    destruct g'; [contradiction | reflexivity ..]. }
  split; [exact HP | split; [exact HO|]].
  exact (proj1 (single_group_theme (engine := asciiBuiltins)) "MINDFUL Monday" Peace HP HO).
Defined.

Lemma resolver_total_on_strings_witness :
  (forall g, ~ appearsIn g "Random Challenge") /\
  getChallengeTheme_rt (Some "Random Challenge") = Normal genericTheme.
Proof.
  assert (H : forall g, ~ appearsIn g "Random Challenge").
  { intros g. apply groupMatches_not_appearsIn. destruct g; reflexivity. }
  split; [exact H|].
  exact (proj1 (proj2 resolver_total_on_strings) "Random Challenge" H).
Defined.

Lemma builder_rejects_iff_empty_witness :
  exists submission,
    builds (acceptingHost individual)
      (draftWorld tickingClock "   " (Some "file:///photo.jpg")) submission /\
    ChallengeSubmission.text submission = EmptyString /\
    ChallengeSubmission.image submission = Some "file:///photo.jpg".
Proof.
  apply (proj2 (proj2 (builder_rejects_iff_empty (engine := asciiBuiltins) (acceptingHost individual)
           (draftWorld tickingClock "   " (Some "file:///photo.jpg"))))
           "file:///photo.jpg").
  - reflexivity.
  - reflexivity.
  - discriminate.
Defined.

Lemma built_record_fields_witness :
  exists submission,
    builds (acceptingHost team) (draftWorld tickingClock " calm morning " None) submission /\
    ChallengeSubmission.text submission = "calm morning" /\
    ChallengeSubmission.likes submission = 0%Z /\
    ChallengeSubmission.participationType submission = team /\
    ChallengeSubmission.id submission = "1700000000000" /\
    ChallengeSubmission.timestamp submission = 1700000000001%Z.
Proof.
  eexists. split; [reflexivity|].
  pose proof (built_record_fields (engine := asciiBuiltins) (acceptingHost team)
                (draftWorld tickingClock " calm morning " None) _ eq_refl) as H.
  repeat split; apply H.
Defined.

Lemma rejected_draft_allocates_nothing_witness :
  emptyDraft (screen (draftWorld tickingClock "  " None)) /\
  fst (handleSubmit (acceptingHost individual) (draftWorld tickingClock "  " None)) = Normal None /\
  reads (snd (handleSubmit (acceptingHost individual) (draftWorld tickingClock "  " None))) = 0.
Proof.
  assert (E : emptyDraft (screen (draftWorld tickingClock "  " None))).
  { split; [reflexivity | discriminate]. }
  split; [exact E|].
  pose proof (proj1 (rejected_draft_allocates_nothing (engine := asciiBuiltins) (acceptingHost individual)) _ E) as H.
  split; apply H.
Defined.

Lemma empty_string_image_is_absent_witness :
  rejectsAsEmpty (acceptingHost individual) (draftWorld tickingClock " " (Some EmptyString)) /\
  exists submission,
    builds (acceptingHost individual) (draftWorld tickingClock "hello" (Some EmptyString)) submission /\
    ChallengeSubmission.image submission = None.
Proof.
  split.
  - apply (proj1 (proj1 (empty_string_image_is_absent (engine := asciiBuiltins) (acceptingHost individual)
             (draftWorld tickingClock " " (Some EmptyString))) eq_refl)).
    reflexivity.
  - eexists. split; [reflexivity|].
    apply (proj2 (proj2 (proj1 (empty_string_image_is_absent (engine := asciiBuiltins) (acceptingHost individual)
             (draftWorld tickingClock "hello" (Some EmptyString))) eq_refl))).
    reflexivity.
Defined.

Lemma acceptance_failure_returns_to_idle_witness :
  phase (world (steps (failingHost individual)
                  [ChangeText "calm"; CameraAnswered (Asset "file:///p.jpg");
                   PressShare; TimerFired] (mount tickingClock))) = Idle /\
  screen (world (steps (failingHost individual)
                   [ChangeText "calm"; CameraAnswered (Asset "file:///p.jpg");
                    PressShare; TimerFired] (mount tickingClock))) =
    {| text := "calm"; selectedImage := Some "file:///p.jpg"; isSubmitting := false |}.
Proof.
  pose proof (proj1 (acceptance_failure_returns_to_idle (engine := asciiBuiltins) (failingHost individual))
                (steps (engine := asciiBuiltins) (failingHost individual)
                   [ChangeText "calm"; CameraAnswered (Asset "file:///p.jpg"); PressShare]
                   (mount tickingClock))
                _ [] HostError eq_refl eq_refl eq_refl) as H1.
  assert (D : ~ emptyDraft (screen (world (steps (engine := asciiBuiltins) (failingHost individual)
                [ChangeText "calm"; CameraAnswered (Asset "file:///p.jpg")]
                (mount tickingClock))))).
  { intros [H _]. discriminate H. }
  pose proof (proj2 (acceptance_failure_returns_to_idle (engine := asciiBuiltins) (failingHost individual))
                (steps (engine := asciiBuiltins) (failingHost individual)
                   [ChangeText "calm"; CameraAnswered (Asset "file:///p.jpg")]
                   (mount tickingClock))
                eq_refl eq_refl D
                (fun _ => ex_intro _ HostError eq_refl)) as H2.
  split; [apply H1 | apply H2].
Defined.

Lemma at_most_one_in_flight_witness :
  length (inFlight (steps (acceptingHost team)
                      [ChangeText "calm"; PressShare; PressShare; PressShare]
                      (mount tickingClock))) <= 1.
Proof.
  apply (at_most_one_in_flight (engine := asciiBuiltins) (acceptingHost team)).
  cbn [steps]. repeat apply reachable_step. apply reachable_mount.
Defined.

Lemma identifiers_follow_the_clock_witness :
  NoDup (map toString
           (issued (trace (world (steps (failingHost individual)
              [ChangeText "first"; PressShare; TimerFired;
               ChangeText "second"; PressShare; TimerFired]
              (mount tickingClock)))))).
Proof.
  apply (proj2 identifiers_follow_the_clock (failingHost individual)).
  - cbn [steps]. repeat apply reachable_step. apply reachable_mount.
  - intros n m L. change (tickingClock n < tickingClock m)%Z.
    unfold tickingClock. lia.
Defined.

Lemma theme_characterisation_witness :
  firstGroupIn Creative "Start a Healthy Habit".
Proof.
  apply (proj1 (theme_characterisation (engine := asciiBuiltins) "Start a Healthy Habit") Creative).
  reflexivity.
Defined.

Lemma longer_title_keeps_priority_witness :
  exists g',
    priority g' <= priority Fitness /\
    getChallengeTheme ("Mindful " ++ "Workout" ++ " Week") = themeOf g'.
Proof.
  apply (longer_title_keeps_priority (engine := asciiBuiltins) "Workout" "Mindful " " Week" Fitness);
    reflexivity.
Defined.

Lemma theme_ignores_case_witness :
  getChallengeTheme "gRATITUDE wEEK" = getChallengeTheme "Gratitude Week".
Proof.
  exact (proj1 (theme_ignores_case (engine := asciiBuiltins))
           [true; true; true; true; true; true; true; true; true; false;
            true; true; true; true]
           "Gratitude Week" eq_refl).
Defined.

Lemma whitespace_only_draft_rejected_witness :
  rejectsAsEmpty (acceptingHost team)
    (draftWorld tickingClock (" " ++ nl ++ " ") (Some EmptyString)).
Proof.
  apply (proj1 (whitespace_only_draft_rejected (engine := asciiBuiltins) (acceptingHost team)
           (draftWorld tickingClock (" " ++ nl ++ " ") (Some EmptyString)) eq_refl)).
  split; reflexivity.
Defined.

Lemma built_record_well_formed_witness :
  exists s,
    builds (acceptingHost team) (draftWorld tickingClock "  a b  " None) s /\
    ChallengeSubmission.text s = "a b" /\
    wellFormed (acceptingHost team) s.
Proof.
  eexists. split; [reflexivity|]. split; [reflexivity|].
  apply (built_record_well_formed (engine := asciiBuiltins) (acceptingHost team)
           (draftWorld tickingClock "  a b  " None)).
  reflexivity.
Defined.

Lemma handed_over_records_well_formed_witness :
  Forall (wellFormed (failingHost team))
    (submitted (trace (world (steps (failingHost team)
       [ChangeText " one "; PressShare; TimerFired; PressShare; TimerFired]
       (mount tickingClock))))).
Proof.
  apply (handed_over_records_well_formed (engine := asciiBuiltins) (failingHost team)).
  cbn [steps]. repeat apply reachable_step. apply reachable_mount.
Defined.

Lemma every_build_accounted_for_witness :
  length (submitted (trace (world (steps (failingHost team)
     [ChangeText "one"; PressShare; TimerFired; PressShare]
     (mount tickingClock))))) +
  length (inFlight (steps (failingHost team)
     [ChangeText "one"; PressShare; TimerFired; PressShare]
     (mount tickingClock))) =
  length (issued (trace (world (steps (failingHost team)
     [ChangeText "one"; PressShare; TimerFired; PressShare]
     (mount tickingClock))))).
Proof.
  apply (every_build_accounted_for (engine := asciiBuiltins) (failingHost team)).
  cbn [steps]. repeat apply reachable_step. apply reachable_mount.
Defined.

Lemma handed_over_identifiers_differ_witness :
  NoDup (map ChallengeSubmission.id
    (submitted (trace (world (steps (failingHost team)
        [ChangeText "one"; PressShare; TimerFired; PressShare]
        (mount tickingClock)))) ++
     inFlight (steps (failingHost team)
        [ChangeText "one"; PressShare; TimerFired; PressShare]
        (mount tickingClock)))).
Proof.
  apply (handed_over_identifiers_differ (engine := asciiBuiltins) (failingHost team)).
  - cbn [steps]. repeat apply reachable_step. apply reachable_mount.
  - intros n m L. change (tickingClock n < tickingClock m)%Z.
    unfold tickingClock. lia.
Defined.

Lemma acceptance_success_closes_witness :
  phase (world (steps (acceptingHost individual)
                  [ChangeText "calm"; PressShare; TimerFired] (mount tickingClock))) = Closed.
Proof.
  exact (proj1 (acceptance_success_closes (engine := asciiBuiltins) (acceptingHost individual)
           (steps (engine := asciiBuiltins) (acceptingHost individual) [ChangeText "calm"; PressShare]
              (mount tickingClock)) _ [] eq_refl eq_refl eq_refl eq_refl)).
Defined.

Lemma close_failure_reports_error_after_delivery_witness :
  length (submitted (trace (world (steps
     {| challenge := sampleCard; participationType := team;
        onSubmit := fun _ => Normal tt; onClose := Throw HostError |}
     [ChangeText "calm"; PressShare; TimerFired; PressShare; TimerFired]
     (mount tickingClock))))) = 2 /\
  phase (world (steps
     {| challenge := sampleCard; participationType := team;
        onSubmit := fun _ => Normal tt; onClose := Throw HostError |}
     [ChangeText "calm"; PressShare; TimerFired] (mount tickingClock))) = Idle.
Proof.
  split; [reflexivity|].
  refine (proj1 (proj2 (close_failure_reports_error_after_delivery (engine := asciiBuiltins)
           {| challenge := sampleCard; participationType := team;
              onSubmit := fun _ => Normal tt; onClose := Throw HostError |}
           (steps (engine := asciiBuiltins) {| challenge := sampleCard; participationType := team;
                     onSubmit := fun _ => Normal tt; onClose := Throw HostError |}
              [ChangeText "calm"; PressShare] (mount tickingClock))
           _ [] HostError _ _ _ _))); reflexivity.
Defined.

Lemma share_disabled_iff_in_flight_witness :
  shareDisabled (world (step (failingHost team) TimerFired
     (steps (failingHost team) [ChangeText "calm"; PressShare] (mount tickingClock)))) = false.
Proof.
  apply (share_disabled_iff_in_flight (engine := asciiBuiltins) (failingHost team)
           (steps (engine := asciiBuiltins) (failingHost team) [ChangeText "calm"; PressShare] (mount tickingClock))).
  - cbn [steps]. repeat apply reachable_step. apply reachable_mount.
  - reflexivity.
Defined.

Lemma close_does_not_cancel_witness :
  length (submitted (trace (world (steps (acceptingHost team)
     [ChangeText "calm"; PressShare; PressClose; TimerFired] (mount tickingClock))))) = 1.
Proof.
  change (length (submitted (trace (world (steps (engine := asciiBuiltins) (acceptingHost team) [PressClose; TimerFired]
     (steps (engine := asciiBuiltins) (acceptingHost team) [ChangeText "calm"; PressShare] (mount tickingClock)))))) = 1).
  rewrite (proj1 (proj2 (close_does_not_cancel (engine := asciiBuiltins) (acceptingHost team)
     (steps (engine := asciiBuiltins) (acceptingHost team) [ChangeText "calm"; PressShare] (mount tickingClock))
     _ [] eq_refl eq_refl eq_refl))).
  reflexivity.
Defined.

Lemma draft_editable_while_submitting_witness :
  text (screen (world (step (failingHost team) (ChangeText "edited")
     (steps (failingHost team) [ChangeText "calm"; PressShare] (mount tickingClock))))) = "edited".
Proof.
  apply (draft_editable_while_submitting (engine := asciiBuiltins) (failingHost team)
           (steps (engine := asciiBuiltins) (failingHost team) [ChangeText "calm"; PressShare] (mount tickingClock))
           _ [] "edited" eq_refl eq_refl).
Defined.

Lemma pickers_touch_only_the_image_witness :
  selectedImage (screen (snd (takePhoto (Asset "file:///new.jpg")
     (draftWorld tickingClock "calm" (Some "file:///old.jpg"))))) = Some "file:///new.jpg".
Proof.
  apply (proj2 (proj2 (proj2 (pickers_touch_only_the_image takePhoto
     (Asset "file:///new.jpg") (draftWorld tickingClock "calm" (Some "file:///old.jpg"))
     (or_intror eq_refl)))) "file:///new.jpg" eq_refl).
Defined.

Lemma picker_answers_witness :
  selectedImage (screen (snd (pickImage_async {| granted := true |}
     {| canceled := false;
        assets := Some [ {| uri := "file:///a.jpg" |}; {| uri := "file:///b.jpg" |} ] |}
     (draftWorld tickingClock "calm" None)))) = Some "file:///a.jpg".
Proof.
  rewrite (proj1 (proj1 (picker_answers {| granted := true |}
     {| canceled := false;
        assets := Some [ {| uri := "file:///a.jpg" |}; {| uri := "file:///b.jpg" |} ] |})
     (Asset "file:///a.jpg") eq_refl)).
  reflexivity.
Defined.

Lemma removing_the_image_witness :
  rejectsAsEmpty (acceptingHost team)
    (world (steps (acceptingHost team)
       [GalleryAnswered (Asset "file:///a.jpg"); PressRemoveImage] (mount tickingClock))) /\
  truthyOrNull (selectedImage (screen (world (step (acceptingHost team) PressRemoveImage
    (steps (acceptingHost team) [GalleryAnswered (Asset "file:///a.jpg")]
       (mount tickingClock)))))) = false.
Proof.
  split; [split; reflexivity|].
  apply (removing_the_image (engine := asciiBuiltins) (acceptingHost team)
    (steps (engine := asciiBuiltins) (acceptingHost team) [GalleryAnswered (Asset "file:///a.jpg")] (mount tickingClock))).
  reflexivity.
Defined.

Lemma preview_is_what_gets_sent_witness :
  exists s,
    builds (acceptingHost team) (draftWorld tickingClock " calm " (Some EmptyString)) s /\
    ChallengeSubmission.image s = None /\
    View.preview (render (acceptingHost team)
      (screen (draftWorld tickingClock " calm " (Some EmptyString)))) = None.
Proof.
  eexists. split; [reflexivity|]. split; [|reflexivity].
  apply (preview_is_what_gets_sent (engine := asciiBuiltins) (acceptingHost team)
    (draftWorld tickingClock " calm " (Some EmptyString))).
  reflexivity.
Defined.

Lemma sharing_label_iff_in_flight_witness :
  View.shareLabel (render (acceptingHost team)
    (screen (world (steps (acceptingHost team) [ChangeText "calm"; PressShare]
       (mount tickingClock))))) = "Sharing...".
Proof.
  apply (proj1 (sharing_label_iff_in_flight (engine := asciiBuiltins) (acceptingHost team)
    (steps (engine := asciiBuiltins) (acceptingHost team) [ChangeText "calm"; PressShare] (mount tickingClock))
    (reachable_step _ _ _ (reachable_step _ _ _ (reachable_mount _ _))))).
  discriminate.
Defined.

Lemma rebuild_differs_only_in_time_witness :
  exists s1 s2,
    builds (failingHost team)
      (world (steps (failingHost team) [ChangeText "calm"] (mount tickingClock))) s1 /\
    builds (failingHost team)
      (world (steps (failingHost team) [ChangeText "calm"; PressShare; TimerFired]
         (mount tickingClock))) s2 /\
    ChallengeSubmission.id s1 <> ChallengeSubmission.id s2 /\
    s2 = {| ChallengeSubmission.id := ChallengeSubmission.id s2;
            ChallengeSubmission.challengeId := ChallengeSubmission.challengeId s1;
            ChallengeSubmission.challengeTitle := ChallengeSubmission.challengeTitle s1;
            ChallengeSubmission.challengeIcon := ChallengeSubmission.challengeIcon s1;
            ChallengeSubmission.text := ChallengeSubmission.text s1;
            ChallengeSubmission.image := ChallengeSubmission.image s1;
            ChallengeSubmission.timestamp := ChallengeSubmission.timestamp s2;
            ChallengeSubmission.author := ChallengeSubmission.author s1;
            ChallengeSubmission.likes := ChallengeSubmission.likes s1;
            ChallengeSubmission.comments := ChallengeSubmission.comments s1;
            ChallengeSubmission.shares := ChallengeSubmission.shares s1;
            ChallengeSubmission.participationType :=
              ChallengeSubmission.participationType s1 |}.
Proof.
  eexists; eexists. split; [vm_compute; reflexivity|].
  split; [vm_compute; reflexivity|]. split; [discriminate|].
  apply (proj1 (rebuild_differs_only_in_time (engine := asciiBuiltins) (failingHost team)
    (world (steps (engine := asciiBuiltins) (failingHost team) [ChangeText "calm"] (mount tickingClock)))
    (world (steps (engine := asciiBuiltins) (failingHost team) [ChangeText "calm"; PressShare; TimerFired]
       (mount tickingClock))) _ _ ltac:(vm_compute; reflexivity)
    ltac:(vm_compute; reflexivity) ltac:(vm_compute; reflexivity)
    ltac:(vm_compute; reflexivity))).
Defined.

(** C4, as stated, fails on [null]: the resolver throws. *)
Lemma resolver_throws_on_null :
  getChallengeTheme_rt None = Throw TypeError /\
  getChallengeTheme_rt None <> Normal genericTheme.
Proof. split; [reflexivity | discriminate]. Qed.

(** C9, as stated, fails: a retry after the clock was set back builds a
    second, different submission under the identifier of the first. *)
Lemma identifiers_collide :
  exists s1 s2,
    submitted (trace (world (steps (engine := asciiBuiltins) (failingHost individual)
       [ChangeText "first"; PressShare; TimerFired;
        ChangeText "second"; PressShare; TimerFired]
       (mount resetClock)))) = [s1; s2] /\
    s1 <> s2 /\
    ChallengeSubmission.id s1 = ChallengeSubmission.id s2.
Proof.
  eexists; eexists. split; [vm_compute; reflexivity|].
  split; [discriminate | reflexivity].
Qed.
